(** * A shallow embedding of src/src/helpers/database.ts

    The embedded engine (sqlite3) is modelled as an explicit store of
    tables; every statement the façade issues is a constructor of [stmt]
    and [exec] gives its effect.  The engine may reject a statement for a
    semantic reason (missing table, duplicate column, ...) or because the
    failure oracle [fails] of the store says so (I/O error, lock, full
    disk): every engine error path of the source is reachable. *)

From Stdlib Require Import String List ZArith Bool Lia Permutation.
Import ListNotations.
Open Scope string_scope.
Open Scope list_scope.

(** ** Values and column declarations *)

(** JS values stored in a column: [null]/[undefined] (one constructor:
    [null == undefined] in JS and both are bound as SQL NULL), integral
    numbers and strings. *)
Inductive value : Type :=
| VNull
| VInt (z : Z)
| VStr (s : string).

Inductive SQLType : Type := TEXT | INTEGER.

Record TableColumn : Type := mkColumn {
  old : option string;
  name : string;
  type : SQLType;
  pkey : bool;
  sensitive : bool;
  default_value : option value
}.

(** A schema: the [tables] option, in the key order of the JS object. *)
Definition Schema := list (string * list TableColumn).

(** ** The engine *)

Definition pcolumn := (string * SQLType)%type.
Definition row := list value.

Record ptable : Type := mkPTable {
  pt_name : string;
  pt_cols : list pcolumn;
  pt_rows : list row
}.

Inductive stmt : Type :=
| SMasterLookup (t : string)                       (* SELECT name FROM sqlite_master WHERE type='table' AND name=? *)
| SMasterAll                                       (* SELECT name FROM sqlite_master WHERE type='table' *)
| SCreate (t : string) (cols : list pcolumn)       (* CREATE TABLE *)
| SDropTable (t : string)                          (* DROP TABLE *)
| SRenameTable (a b : string)                      (* ALTER TABLE a RENAME TO b *)
| SPragma (t : string)                             (* PRAGMA table_info *)
| SAddColumn (t c : string) (ty : SQLType)         (* ALTER TABLE ADD COLUMN *)
| SUpdateAll (t c : string) (v : value)            (* UPDATE t SET c=? *)
| SDropColumn (t c : string)                       (* ALTER TABLE DROP COLUMN *)
| SRenameColumn (t a b : string)                   (* ALTER TABLE RENAME COLUMN *)
| SInsertSelect (dst src : string) (cols : list string) (* INSERT INTO dst SELECT cols FROM src *)
| SInsertValues (t : string) (vs : list value)     (* INSERT INTO t VALUES(?,..) *)
| SUpdate (t f : string) (v : value) (sf : string) (sv : value) (* UPDATE t SET f=? WHERE sf=? *)
| SSelectCol (t f : string) (v : value)            (* SELECT f FROM t WHERE f=? LIMIT 1 *)
| SSelectRows (t : string) (w : option (string * value)) (limit : option nat)
                                                   (* SELECT * FROM t [WHERE f = ?] [LIMIT n] *)
| SDeleteRows (t f : string) (v : value) (limit : option nat)
                                                   (* DELETE ... WHERE rowid IN (SELECT ... LIMIT n) *)
| SMoveRows (dst src f : string) (v : value) (limit : option nat)
                                                   (* INSERT INTO dst SELECT * FROM src WHERE f=? *)
| SVacuum.

Inductive output : Type :=
| ONone
| OFound (b : bool)
| ONames (l : list string)
| OCols (l : list pcolumn)
| ORows (l : list (list (string * value)))
| OChanges (n : nat).

Record engine : Type := mkEngine {
  tables : list ptable;
  fails : stmt -> bool;
  log : list stmt
}.

(** SQL [=]: NULL is equal to nothing. *)
Definition sql_eq (a b : value) : bool :=
  match a, b with
  | VInt x, VInt y => Z.eqb x y
  | VStr x, VStr y => String.eqb x y
  | _, _ => false
  end.

Definition memb (x : string) (l : list string) : bool :=
  existsb (String.eqb x) l.

Definition col_names (cs : list pcolumn) : list string := map fst cs.

Fixpoint index_of (x : string) (l : list string) : option nat :=
  match l with
  | [] => None
  | y :: l' => if String.eqb x y then Some 0
               else option_map S (index_of x l')
  end.

Fixpoint nodupb (l : list string) : bool :=
  match l with
  | [] => true
  | x :: l' => negb (memb x l') && nodupb l'
  end.

Fixpoint find_table (t : string) (ts : list ptable) : option ptable :=
  match ts with
  | [] => None
  | p :: ts' => if String.eqb (pt_name p) t then Some p else find_table t ts'
  end.

Definition has_table (t : string) (ts : list ptable) : bool :=
  match find_table t ts with Some _ => true | None => false end.

Definition drop_table (t : string) (ts : list ptable) : list ptable :=
  filter (fun p => negb (String.eqb (pt_name p) t)) ts.

Definition replace_table (p : ptable) (ts : list ptable) : list ptable :=
  map (fun q => if String.eqb (pt_name q) (pt_name p) then p else q) ts.

(** ALTER TABLE a RENAME TO b, on one table. *)
Definition ren_table (a b : string) (q : ptable) : ptable :=
  if String.eqb (pt_name q) a then mkPTable b (pt_cols q) (pt_rows q) else q.

Definition ren_name (a b x : string) : string := if String.eqb x a then b else x.

Fixpoint remove_nth {A} (n : nat) (l : list A) : list A :=
  match n, l with
  | _, [] => []
  | O, _ :: l' => l'
  | S n', x :: l' => x :: remove_nth n' l'
  end.

Fixpoint set_nth {A} (n : nat) (x : A) (l : list A) : list A :=
  match n, l with
  | _, [] => []
  | O, _ :: l' => x :: l'
  | S n', y :: l' => y :: set_nth n' x l'
  end.

Definition rename_col (a b : string) (cs : list pcolumn) : list pcolumn :=
  map (fun c => if String.eqb (fst c) a then (b, snd c) else c) cs.

Definition cell (cs : list pcolumn) (f : string) (r : row) : value :=
  match index_of f (col_names cs) with
  | Some i => nth i r VNull
  | None => VNull
  end.

Definition matches (cs : list pcolumn) (f : string) (v : value) (r : row) : bool :=
  sql_eq (cell cs f r) v.

Definition take (limit : option nat) {A} (l : list A) : list A :=
  match limit with Some n => firstn n l | None => l end.

(** Delete the first [n] matching rows (rowid order), or all of them. *)
Fixpoint delete_matching (p : row -> bool) (limit : option nat) (rs : list row)
  : list row * nat :=
  match rs with
  | [] => ([], 0)
  | r :: rs' =>
      if p r then
        match limit with
        | Some 0 => (rs, 0)
        | Some (S n) => let '(rs'', k) := delete_matching p (Some n) rs' in (rs'', S k)
        | None => let '(rs'', k) := delete_matching p None rs' in (rs'', S k)
        end
      else let '(rs'', k) := delete_matching p limit rs' in (r :: rs'', k)
  end.

Definition as_object (cs : list pcolumn) (r : row) : list (string * value) :=
  combine (col_names cs) r.

Definition with_tables (e : engine) (ts : list ptable) (s : stmt) : engine :=
  mkEngine ts (fails e) (log e ++ [s]).

Definition with_log (e : engine) (s : stmt) : engine :=
  mkEngine (tables e) (fails e) (log e ++ [s]).

(** One statement on a healthy engine; [None] is an engine error. *)
Definition exec_ok (s : stmt) (e : engine) : option (output * engine) :=
  let ts := tables e in
  match s with
  | SMasterLookup t => Some (OFound (has_table t ts), with_log e s)
  | SMasterAll => Some (ONames (map pt_name ts), with_log e s)
  | SCreate t cols =>
      if has_table t ts || negb (nodupb (col_names cols)) || (length cols =? 0)%nat
      then None
      else Some (ONone, with_tables e (ts ++ [mkPTable t cols []]) s)
  | SDropTable t =>
      if has_table t ts then Some (ONone, with_tables e (drop_table t ts) s) else None
  | SRenameTable a b =>
      if has_table a ts && negb (has_table b ts)
      then Some (ONone, with_tables e (map (ren_table a b) ts) s)
      else None
  | SPragma t =>
      Some (OCols (match find_table t ts with Some p => pt_cols p | None => [] end),
            with_log e s)
  | SAddColumn t c ty =>
      match find_table t ts with
      | Some p =>
          if memb c (col_names (pt_cols p)) then None
          else Some (ONone, with_tables e
                 (replace_table (mkPTable t (pt_cols p ++ [(c, ty)])
                                   (map (fun r => r ++ [VNull]) (pt_rows p))) ts) s)
      | None => None
      end
  | SUpdateAll t c v =>
      match find_table t ts with
      | Some p =>
          match index_of c (col_names (pt_cols p)) with
          | Some i => Some (OChanges (length (pt_rows p)), with_tables e
                        (replace_table (mkPTable t (pt_cols p)
                                          (map (set_nth i v) (pt_rows p))) ts) s)
          | None => None
          end
      | None => None
      end
  | SDropColumn t c =>
      match find_table t ts with
      | Some p =>
          match index_of c (col_names (pt_cols p)) with
          | Some i =>
              if (length (pt_cols p) =? 1)%nat then None
              else Some (ONone, with_tables e
                     (replace_table (mkPTable t (remove_nth i (pt_cols p))
                                       (map (remove_nth i) (pt_rows p))) ts) s)
          | None => None
          end
      | None => None
      end
  | SRenameColumn t a b =>
      match find_table t ts with
      | Some p =>
          if memb a (col_names (pt_cols p)) && negb (memb b (col_names (pt_cols p)))
          then Some (ONone, with_tables e
                 (replace_table (mkPTable t (rename_col a b (pt_cols p)) (pt_rows p)) ts) s)
          else None
      | None => None
      end
  | SInsertSelect dst src cols =>
      match find_table dst ts, find_table src ts with
      | Some d, Some p =>
          if forallb (fun c => memb c (col_names (pt_cols p))) cols
             && (length cols =? length (pt_cols d))%nat
          then let new := map (fun r => map (fun c => cell (pt_cols p) c r) cols) (pt_rows p) in
               Some (OChanges (length new), with_tables e
                 (replace_table (mkPTable dst (pt_cols d) (pt_rows d ++ new)) ts) s)
          else None
      | _, _ => None
      end
  | SInsertValues t vs =>
      match find_table t ts with
      | Some p =>
          if (length vs =? length (pt_cols p))%nat
          then Some (OChanges 1, with_tables e
                 (replace_table (mkPTable t (pt_cols p) (pt_rows p ++ [vs])) ts) s)
          else None
      | None => None
      end
  | SUpdate t f v sf sv =>
      match find_table t ts with
      | Some p =>
          match index_of f (col_names (pt_cols p)), index_of sf (col_names (pt_cols p)) with
          | Some i, Some _ =>
              let hit := matches (pt_cols p) sf sv in
              Some (OChanges (length (filter hit (pt_rows p))), with_tables e
                (replace_table (mkPTable t (pt_cols p)
                   (map (fun r => if hit r then set_nth i v r else r) (pt_rows p))) ts) s)
          | _, _ => None
          end
      | None => None
      end
  | SSelectCol t f v =>
      match find_table t ts with
      | Some p =>
          if memb f (col_names (pt_cols p))
          then Some (OFound (existsb (matches (pt_cols p) f v) (pt_rows p)), with_log e s)
          else None
      | None => None
      end
  | SSelectRows t w limit =>
      match find_table t ts with
      | Some p =>
          match w with
          | None => Some (ORows (take limit (map (as_object (pt_cols p)) (pt_rows p))),
                          with_log e s)
          | Some (f, v) =>
              if memb f (col_names (pt_cols p))
              then Some (ORows (take limit (map (as_object (pt_cols p))
                                   (filter (matches (pt_cols p) f v) (pt_rows p)))),
                         with_log e s)
              else None
          end
      | None => None
      end
  | SDeleteRows t f v limit =>
      match find_table t ts with
      | Some p =>
          if memb f (col_names (pt_cols p))
          then let '(rs, k) := delete_matching (matches (pt_cols p) f v) limit (pt_rows p) in
               Some (OChanges k, with_tables e
                 (replace_table (mkPTable t (pt_cols p) rs) ts) s)
          else None
      | None => None
      end
  | SMoveRows dst src f v limit =>
      match find_table dst ts, find_table src ts with
      | Some d, Some p =>
          if memb f (col_names (pt_cols p))
             && (length (pt_cols p) =? length (pt_cols d))%nat
          then let new := take limit (filter (matches (pt_cols p) f v) (pt_rows p)) in
               Some (OChanges (length new), with_tables e
                 (replace_table (mkPTable dst (pt_cols d) (pt_rows d ++ new)) ts) s)
          else None
      | _, _ => None
      end
  | SVacuum => Some (ONone, with_log e s)
  end.

Definition exec (s : stmt) (e : engine) : option (output * engine) :=
  if fails e s then None else exec_ok s e.

(** [exec_ok] compares table and column names as exact strings, as the
    JavaScript side does ([includes], [==], the [name=?] lookup of
    sqlite_master). SQLite itself resolves identifiers in CREATE, ALTER,
    DROP, PRAGMA and in WHERE clauses ignoring ASCII case, and converts
    values to a column's type affinity; statements about those steps below
    are restricted to inputs where the two agree, stated with the
    predicates that follow. *)




(** A value stored or compared in a column of type [ty] that SQLite's type
    affinity leaves as it is. *)
Definition fits (ty : SQLType) (v : value) : bool :=
  match ty, v with
  | _, VNull => true
  | TEXT, VStr _ => true
  | INTEGER, VInt _ => true
  | _, _ => false
  end.

Definition col_type (cs : list pcolumn) (f : string) : option SQLType :=
  option_map snd (find (fun c => String.eqb (fst c) f) cs).

(** [v] compared with column [f]: the column exists and [v] fits it. *)
Definition key_fits (cs : list pcolumn) (f : string) (v : value) : bool :=
  match col_type cs f with Some ty => fits ty v | None => false end.

(** Every row has one cell per column and every cell fits its column. *)
Definition typed_table (p : ptable) : bool :=
  forallb (fun r => (length r =? length (pt_cols p))%nat &&
                    forallb (fun cv => fits (snd (fst cv)) (snd cv)) (combine (pt_cols p) r))
          (pt_rows p).

(** ** File system (fs/promises) *)

(** A path is its list of segments; [[]] is the empty string. *)
Definition path := list string.

Definition dirname (p : path) : path := removelast p.

Inductive io_op : Type :=
| IOMkdir (d : path)
| IOUnlink (f : path)
| IOCopy (src dst : path)
| IOOpenDb (f : path).

Record fsys : Type := mkFs {
  dirs : list path;
  files : list (path * string);
  io_fails : io_op -> bool
}.

Fixpoint path_eqb (a b : path) : bool :=
  match a, b with
  | [], [] => true
  | x :: a', y :: b' => String.eqb x y && path_eqb a' b'
  | _, _ => false
  end.

Fixpoint file_get (f : path) (l : list (path * string)) : option string :=
  match l with
  | [] => None
  | (g, c) :: l' => if path_eqb f g then Some c else file_get f l'
  end.

Definition file_del (f : path) (l : list (path * string)) : list (path * string) :=
  filter (fun e => negb (path_eqb f (fst e))) l.

Definition prefixes (d : path) : list path :=
  map (fun n => firstn n d) (seq 1 (length d)).

(** [fsp.mkdir(d, { recursive: true })]: every ancestor is created. *)
Definition fs_mkdir (d : path) (fs : fsys) : option fsys :=
  if io_fails fs (IOMkdir d) then None
  else Some (mkFs (dirs fs ++ filter (fun q => negb (existsb (path_eqb q) (dirs fs)))
                                       (prefixes d))
                  (files fs) (io_fails fs)).

Definition fs_unlink (f : path) (fs : fsys) : option fsys :=
  if io_fails fs (IOUnlink f) then None
  else match file_get f (files fs) with
       | Some _ => Some (mkFs (dirs fs) (file_del f (files fs)) (io_fails fs))
       | None => None   (* ENOENT *)
       end.

Definition fs_copy (src dst : path) (fs : fsys) : option fsys :=
  if io_fails fs (IOCopy src dst) then None
  else match file_get src (files fs) with
       | Some c => Some (mkFs (dirs fs) ((dst, c) :: file_del dst (files fs)) (io_fails fs))
       | None => None
       end.

(** ** The façade state and its monad *)

(** The ApiResponse envelope, restricted to the fields the claims read. *)
Record resp : Type := mkResp {
  code : Z;
  status : option bool;
  changes : option nat
}.

Definition R200 := mkResp 200 (Some true) None.
Definition R500 := mkResp 500 (Some false) None.

(** JS truthiness of [result.status] ([undefined] is falsy). *)
Definition status_true (r : resp) : bool :=
  match status r with Some true => true | _ => false end.

Record Options : Type := mkOptions {
  filename : path;
  backup_filename : path;
  delete_unused : bool;
  reorder : bool;
  schema : Schema;
  backup_enabled : bool;
  vacuum_enabled : bool
}.

Record state : Type := mkState {
  eng : engine;
  fs : fsys;
  ready : bool;
  busy : bool;
  backup_timer : bool;   (* an interval is installed *)
  vacuum_timer : bool;
  rand : nat             (* source of [Math.random()] for temporary names *)
}.

Definition set_eng (e : engine) (s : state) : state :=
  mkState e (fs s) (ready s) (busy s) (backup_timer s) (vacuum_timer s) (rand s).
Definition set_fs (f : fsys) (s : state) : state :=
  mkState (eng s) f (ready s) (busy s) (backup_timer s) (vacuum_timer s) (rand s).
Definition set_busy (b : bool) (s : state) : state :=
  mkState (eng s) (fs s) (ready s) b (backup_timer s) (vacuum_timer s) (rand s).

(** A call of an async method either settles its promise with a value
    ([Done]), never settles it ([Hang]: a [TypeError] thrown inside an
    engine callback leaves the enclosing promise pending), or rejects it
    ([Reject]: an exception thrown in the body of an [async] function). *)
Inductive outcome (A : Type) : Type :=
| Done (a : A) (s : state)
| Hang (s : state)
| Reject (err : string) (s : state).
Arguments Done {A} a s.
Arguments Hang {A} s.
Arguments Reject {A} err s.

Definition M (A : Type) : Type := state -> outcome A.

Definition ret {A} (a : A) : M A := fun s => Done a s.

Definition bind {A B} (m : M A) (k : A -> M B) : M B := fun s =>
  match m s with
  | Done a s' => k a s'
  | Hang s' => Hang s'
  | Reject e s' => Reject e s'
  end.

Notation "x <- m ;; k" := (bind m (fun x => k))
  (at level 61, m at next level, right associativity).

Definition hang {A} : M A := fun s => Hang s.
Definition throw {A} (e : string) : M A := fun s => Reject e s.
Definition modify (f : state -> state) : M unit := fun s => Done tt (f s).

(** Issue one statement; [None] is the engine's [err] callback argument. *)
Definition run (st : stmt) : M (option output) := fun s =>
  match exec st (eng s) with
  | Some (o, e') => Done (Some o) (set_eng e' s)
  | None => Done None s
  end.

Fixpoint fold_m {A B} (l : list A) (acc : B) (f : B -> A -> M B) : M B :=
  match l with
  | [] => ret acc
  | x :: l' => acc' <- f acc x ;; fold_m l' acc' f
  end.

Definition for_each {A} (l : list A) (f : A -> M unit) : M unit :=
  fold_m l tt (fun _ x => f x).

(** [resolve(r)] of a promise that may already be resolved: the first
    call wins.  (In [addFields] the caller resumes as soon as the first
    [resolve] runs while the loop goes on; the model runs the rest of the
    loop before the caller resumes.) *)
Definition first (acc : option resp) (r : resp) : option resp :=
  match acc with Some _ => acc | None => Some r end.

Definition settle (acc : option resp) (r : resp) : resp :=
  match acc with Some a => a | None => r end.

Fixpoint dec_aux (fuel n : nat) (acc : string) : string :=
  match fuel with
  | O => acc
  | S f => let acc' := String (Ascii.ascii_of_nat (48 + Nat.modulo n 10)) acc in
           if (n <? 10)%nat then acc' else dec_aux f (Nat.div n 10) acc'
  end.

Definition temp_name (n : nat) : string := "temp_" ++ dec_aux (S n) n "".

Definition fresh : M nat := fun s =>
  Done (rand s) (mkState (eng s) (fs s) (ready s) (busy s) (backup_timer s)
                         (vacuum_timer s) (S (rand s))).

(** Keys found on every JS object through [Object.prototype]: [this.tables[k]]
    is truthy for them. *)
Definition object_proto_keys : list string :=
  ["constructor"; "__proto__"; "__defineGetter__"; "__defineSetter__";
   "__lookupGetter__"; "__lookupSetter__"; "hasOwnProperty"; "isPrototypeOf";
   "propertyIsEnumerable"; "toString"; "toLocaleString"; "valueOf"].

(** ** Database: migration engine and lifecycle *)

Section Database.

Variable opts : Options.

Definition ok_or_500 (o : option output) : resp :=
  match o with Some _ => R200 | None => R500 end.

Definition tableExists (t : string) : M resp :=
  o <- run (SMasterLookup t) ;;
  ret (match o with
       | Some (OFound b) => mkResp 200 (Some b) None
       | _ => R500
       end).

Definition fieldExists (t f : string) : M resp :=
  o <- run (SPragma t) ;;
  ret (match o with
       | Some (OCols cs) => mkResp 200 (Some (memb f (col_names cs))) None
       | _ => R500
       end).

Definition renameField (t a b : string) : M resp :=
  r1 <- fieldExists t a ;;
  if negb (status_true r1)
  then ret (mkResp (if (code r1 =? 200)%Z then 404 else 500) (Some false) None)
  else
    r2 <- fieldExists t b ;;
    if negb (code r2 =? 200)%Z || status_true r2
    then ret (mkResp (if (code r1 =? 200)%Z then 409 else 500) (Some false) None)
    else o <- run (SRenameColumn t a b) ;; ret (ok_or_500 o).

Definition addField (t f : string) (ty : SQLType) (dv : option value) : M resp :=
  o <- run (SAddColumn t f ty) ;;
  match o with
  | None => ret R500
  | Some _ =>
      match dv with
      | None | Some VNull => ret R200        (* default_value == null *)
      | Some v => o2 <- run (SUpdateAll t f v) ;; ret (ok_or_500 o2)
      end
  end.

Definition deleteField (t f : string) : M resp :=
  o <- run (SDropColumn t f) ;; ret (ok_or_500 o).

Definition addFields (t : string) (fields : list TableColumn) (du : bool) : M resp :=
  acc <- fold_m fields None (fun acc f =>
           match old f with
           | None => ret acc
           | Some o => r <- renameField t o (name f) ;;
                       ret (if (code r =? 500)%Z then first acc r else acc)
           end) ;;
  o <- run (SPragma t) ;;
  match o with
  | Some (OCols cs) =>
      let add_fields := map name fields in
      let db_fields := col_names cs in
      let missing_fields := filter (fun f => negb (memb (name f) db_fields)) fields in
      let unused_fields := filter (fun c => negb (memb c add_fields)) db_fields in
      acc <- fold_m missing_fields acc (fun acc f =>
               r <- addField t (name f) (type f) (default_value f) ;;
               ret (if (code r =? 200)%Z then acc else first acc r)) ;;
      acc <- (if du
              then fold_m unused_fields acc (fun acc c =>
                     r <- deleteField t c ;;
                     ret (if (code r =? 200)%Z then acc else first acc r))
              else ret acc) ;;
      ret (settle acc R200)
  | _ => ret (settle acc R500)
  end.

Definition createTable (t : string) (fields : list TableColumn) : M resp :=
  r <- tableExists t ;;
  if negb (code r =? 200)%Z then ret (mkResp 500 None None)
  else if status_true r then addFields t fields (delete_unused opts)
  else o <- run (SCreate t (map (fun f => (name f, type f)) fields)) ;; ret (ok_or_500 o).

Definition deleteTable (t : string) : M resp :=
  r <- tableExists t ;;
  if negb (code r =? 200)%Z then ret R500
  else if negb (status_true r) then ret (mkResp 404 (Some false) None)
  else o <- run (SDropTable t) ;; ret (ok_or_500 o).

Definition getTables : M (resp * list string) :=
  o <- run SMasterAll ;;
  ret (match o with
       | Some (ONames l) => (R200, l)
       | _ => (R500, [])
       end).

Definition renameTable (a b : string) : M resp :=
  r1 <- tableExists a ;;
  if negb (status_true r1)
  then ret (mkResp (if (code r1 =? 200)%Z then 404 else 500) (Some false) None)
  else
    r2 <- tableExists b ;;
    if negb (code r2 =? 200)%Z || status_true r2
    then ret (mkResp (if (code r1 =? 200)%Z then 409 else 500) (Some false) None)
    else o <- run (SRenameTable a b) ;; ret (ok_or_500 o).

(** [fields.every((e, i) => table_fields[i].name == e.name)]; [None] when
    [table_fields[i]] is [undefined] (TypeError). *)
Fixpoint every_match (fields : list TableColumn) (tf : list pcolumn) : option bool :=
  match fields, tf with
  | [], _ => Some true
  | _ :: _, [] => None
  | f :: fs', c :: tf' => if String.eqb (fst c) (name f) then every_match fs' tf' else Some false
  end.

(** [table_fields.findIndex(...)] then [splice(index, 1)]. *)
Fixpoint splice_out (n : string) (tf : list pcolumn) : option pcolumn * list pcolumn :=
  match tf with
  | [] => (None, [])
  | c :: tf' => if String.eqb (fst c) n then (Some c, tf')
                else let '(x, rest) := splice_out n tf' in (x, c :: rest)
  end.

(** [fields.map(e => ... splice ... : null).concat(table_fields)]. *)
Fixpoint splice_order (fields : list TableColumn) (tf : list pcolumn) : list (option pcolumn) :=
  match fields with
  | [] => map Some tf
  | f :: fs' => let '(x, tf') := splice_out (name f) tf in x :: splice_order fs' tf'
  end.

Fixpoint all_some {A} (l : list (option A)) : option (list A) :=
  match l with
  | [] => Some []
  | None :: _ => None
  | Some x :: l' => option_map (cons x) (all_some l')
  end.

(** A PRAGMA row read as a [TableColumn]: it has [name] and [type] but no
    [old], [pkey] or [default_value] property. *)
Definition col_of_phys (c : pcolumn) : TableColumn :=
  mkColumn None (fst c) (snd c) false false None.

Definition reorderFields (t : string) (fields : list TableColumn) : M resp :=
  o <- run (SPragma t) ;;
  match o with
  | Some (OCols tf) =>
      match every_match fields tf with
      | None => hang
      | Some true => ret (mkResp 200 (Some false) None)
      | Some false =>
          n <- fresh ;;
          let tmp := temp_name n in
          let db_fields := splice_order fields tf in
          _ <- deleteTable tmp ;;
          match all_some db_fields with
          | None =>
              (* createTable reads [field.name] / [field.old] of a null entry *)
              r <- tableExists tmp ;;
              if (code r =? 200)%Z then hang else ret (mkResp 500 None None)
          | Some cols =>
              r <- createTable tmp (map col_of_phys cols) ;;
              if negb (code r =? 200)%Z then ret r
              else
                o2 <- run (SInsertSelect tmp t (col_names cols)) ;;
                match o2 with
                | None => ret (mkResp 500 (Some false) None)
                | Some _ =>
                    r <- deleteTable t ;;
                    if negb (code r =? 200)%Z then ret (mkResp (code r) (Some false) None)
                    else
                      r <- renameTable tmp t ;;
                      if negb (code r =? 200)%Z then ret (mkResp (code r) (Some false) None)
                      else ret R200
                end
          end
      end
  | _ => ret R500
  end.

Definition declared (t : string) : bool :=
  memb t (map fst (schema opts)) || memb t object_proto_keys.

Definition mkdir_quiet (d : path) : M unit := fun s =>
  match fs_mkdir d (fs s) with
  | Some f => Done tt (set_fs f s)
  | None => Done tt s          (* try { ... } catch (e) {} *)
  end.

(** [new sqlite3.Database(filename, OPEN_READWRITE | OPEN_CREATE, cb)]. *)
Definition open_handle : M bool := fun s =>
  if io_fails (fs s) (IOOpenDb (filename opts)) then Done false s
  else match file_get (filename opts) (files (fs s)) with
       | Some _ => Done true s
       | None => Done true (set_fs (mkFs (dirs (fs s)) ((filename opts, "") :: files (fs s))
                                         (io_fails (fs s))) s)
       end.

Definition migrate_table (tf : string * list TableColumn) : M unit :=
  _ <- createTable (fst tf) (snd tf) ;;
  if reorder opts then _ <- reorderFields (fst tf) (snd tf) ;; ret tt else ret tt.

Definition prune_table (t : string) : M unit :=
  if delete_unused opts && negb (declared t) then _ <- deleteTable t ;; ret tt else ret tt.

Definition mark_ready (s : state) : state :=
  mkState (eng s) (fs s) true (busy s)
          (backup_enabled opts || backup_timer s)
          (vacuum_enabled opts || vacuum_timer s) (rand s).

Definition open : M resp :=
  _ <- mkdir_quiet (dirname (filename opts)) ;;
  h <- open_handle ;;
  if negb h then ret R500
  else
    _ <- for_each (schema opts) migrate_table ;;
    g <- getTables ;;
    _ <- for_each (snd g) prune_table ;;
    _ <- modify mark_ready ;;
    ret R200.

End Database.

(** ** Row access layer *)

(** A JS object of column values; a missing key reads as [undefined]. *)
Definition obj := list (string * value).

Fixpoint oget (k : string) (o : obj) : value :=
  match o with
  | [] => VNull
  | (k', v) :: o' => if String.eqb k k' then v else oget k o'
  end.

(** [o[k] = v]: overwrite the property or append it. *)
Fixpoint oset (k : string) (v : value) (o : obj) : obj :=
  match o with
  | [] => [(k, v)]
  | (k', v') :: o' => if String.eqb k k' then (k, v) :: o' else (k', v') :: oset k v o'
  end.

Definition valueExists (t f : string) (v : value) : M resp :=
  o <- run (SSelectCol t f v) ;;
  ret (match o with
       | Some (OFound b) => mkResp 200 (Some b) None
       | _ => R500
       end).

Definition addValues (t : string) (args : list value) : M resp :=
  o <- run (SInsertValues t args) ;;
  ret (match o with
       | Some _ => mkResp 200 (Some true) (Some 1)
       | None => mkResp 500 None None
       end).

Definition setValue (t f : string) (v : value) (sf : string) (sv : value) : M resp :=
  o <- run (SUpdate t f v sf sv) ;;
  ret (match o with
       | Some (OChanges n) => mkResp 200 (Some (0 <? n)%nat) (Some n)
       | _ => mkResp 500 (Some false) (Some 0)
       end).

(** [getRows]: [w = None] is the ['*'] operator (no WHERE clause). *)
Definition getRows (t : string) (w : option (string * value)) (limit : option nat)
  : M (Z * option (list obj)) :=
  o <- run (SSelectRows t w limit) ;;
  ret (match o with
       | Some (ORows rs) => (200%Z, Some rs)
       | _ => (500%Z, None)
       end).

Definition getRow (t f : string) (v : value) : M (Z * option obj) :=
  r <- getRows t (Some (f, v)) (Some 1) ;;
  ret (fst r, match snd r with Some (x :: _) => Some x | _ => None end).

Definition deleteRows (t f : string) (v : value) (limit : option nat) : M resp :=
  o <- run (SDeleteRows t f v limit) ;;
  ret (match o with
       | Some (OChanges n) => mkResp 200 (Some (0 <? n)%nat) (Some n)
       | _ => mkResp 500 (Some false) (Some 0)
       end).

Definition deleteRow (t f : string) (v : value) : M resp := deleteRows t f v (Some 1).

Definition moveRows (from_table to_table f : string) (v : value) (limit : option nat) : M resp :=
  o <- run (SMoveRows to_table from_table f v limit) ;;
  match o with
  | None => ret (mkResp 500 (Some false) (Some 0))
  | Some _ => deleteRows from_table f v limit
  end.

(** ** Model factory ([_generateModels]) *)

Record Model : Type := mkModel {
  tableName : string;
  mschema : list TableColumn
}.

(** [schema.find(col => col.pkey)?.name], then the truthiness test
    [!primaryKeyColumn] (an empty name is falsy). *)
Definition primaryKeyColumn (m : Model) : option string :=
  match find pkey (mschema m) with
  | Some c => if String.eqb (name c) "" then None else Some (name c)
  | None => None
  end.

(** An instance: its column properties and the [_original_*] snapshot. *)
Record instance : Type := mkInst {
  cur : obj;
  orig : obj
}.

(** [new BaseModel(...args)]: a missing argument is [undefined]. *)
Definition construct (m : Model) (args : list value) : instance :=
  fst (fold_left (fun acc c =>
         let '(i, n) := acc in
         let v := nth n args VNull in
         (mkInst (oset (name c) v (cur i)) (oset (name c) v (orig i)), S n))
       (mschema m) (mkInst [] [], 0%nat)).

Definition create (m : Model) (args : list value) : instance := construct m args.

Definition toObject (m : Model) (i : instance) (sens : bool) : obj :=
  fold_left (fun o c => oset (name c) (oget (name c) (cur i)) o)
            (filter (fun c => sens || negb (sensitive c)) (mschema m)) [].

Definition fromObject (m : Model) (o : obj) : instance :=
  construct m (map (fun c => oget (name c) o) (mschema m)).

(** JS [ToNumber] on a string holding a decimal integer literal (surrounded
    by blanks); [""] and blanks give 0, other strings give NaN here. *)
Definition is_blank (a : Ascii.ascii) : bool :=
  Ascii.eqb a (Ascii.ascii_of_nat 32) || Ascii.eqb a (Ascii.ascii_of_nat 9) || Ascii.eqb a (Ascii.ascii_of_nat 10)
  || Ascii.eqb a (Ascii.ascii_of_nat 13).

Fixpoint trim_left (s : string) : string :=
  match s with
  | String a s' => if is_blank a then trim_left s' else s
  | EmptyString => EmptyString
  end.

Definition trim (s : string) : string :=
  string_of_list_ascii (rev (list_ascii_of_string (trim_left
    (string_of_list_ascii (rev (list_ascii_of_string (trim_left s))))))).

Fixpoint digits (s : string) (acc : Z) : option Z :=
  match s with
  | EmptyString => Some acc
  | String a s' =>
      let n := Ascii.nat_of_ascii a in
      if ((48 <=? n) && (n <=? 57))%nat then digits s' (acc * 10 + Z.of_nat (n - 48))
      else None
  end.

Definition str_to_number (s : string) : option Z :=
  match trim s with
  | EmptyString => Some 0%Z
  | String a d =>
      if Ascii.eqb a (Ascii.ascii_of_nat 45) then
        match d with EmptyString => None | _ => option_map Z.opp (digits d 0) end
      else if Ascii.eqb a (Ascii.ascii_of_nat 43) then
        match d with EmptyString => None | _ => digits d 0 end
      else digits (String a d) 0
  end.

(** JS [a == b] on the modelled values. *)
Definition loose_eq (a b : value) : bool :=
  match a, b with
  | VNull, VNull => true
  | VInt x, VInt y => Z.eqb x y
  | VStr x, VStr y => String.eqb x y
  | VInt x, VStr y | VStr y, VInt x =>
      match str_to_number y with Some z => Z.eqb x z | None => false end
  | _, _ => false
  end.

Definition no_pkey_error (op t : string) : string :=
  "Cannot " ++ op ++ ": No primary key (pkey: true) defined for table '" ++ t ++ "'.".

(** The columns [save] writes on the update path. *)
Definition changed_columns (m : Model) (i : instance) : list TableColumn :=
  filter (fun c => negb (loose_eq (oget (name c) (cur i)) (oget (name c) (orig i))))
         (filter (fun c => negb (pkey c)) (mschema m)).

Definition refresh (cols : list TableColumn) (i : instance) : instance :=
  mkInst (cur i) (fold_left (fun o c => oset (name c) (oget (name c) (cur i)) o) cols (orig i)).

Fixpoint map_m {A B} (f : A -> M B) (l : list A) : M (list B) :=
  match l with
  | [] => ret []
  | x :: l' => y <- f x ;; ys <- map_m f l' ;; ret (y :: ys)
  end.

(** [save()]: returns the response and the instance with its snapshot. *)
Definition save (m : Model) (i : instance) : M (resp * instance) :=
  match primaryKeyColumn m with
  | None => throw (no_pkey_error "save" (tableName m))
  | Some pk =>
      let pkValue := oget pk (cur i) in
      let update := changed_columns m i in
      existsResult <- valueExists (tableName m) pk pkValue ;;
      if negb (status_true existsResult) then
        result <- addValues (tableName m) (map (fun c => oget (name c) (cur i)) (mschema m)) ;;
        ret (result, if status_true result then refresh update i else i)
      else
        results <- map_m (fun c => setValue (tableName m) (name c) (oget (name c) (cur i)) pk pkValue)
                         update ;;
        let ok := forallb status_true results in
        ret (mkResp (if ok then 200 else 500) (Some ok) (Some (if ok then 1 else 0)%nat),
             if ok then refresh update i else i)
  end.

Definition delete (m : Model) (i : instance) : M resp :=
  match primaryKeyColumn m with
  | None => throw (no_pkey_error "delete" (tableName m))
  | Some pk => deleteRow (tableName m) pk (oget pk (cur i))
  end.

Definition move (m : Model) (i : instance) (to_model : Model) : M resp :=
  match primaryKeyColumn m with
  | None => throw (no_pkey_error "move" (tableName m))
  | Some pk => moveRows (tableName m) (tableName to_model) pk (oget pk (cur i)) None
  end.

Definition convert (m : Model) (i : instance) (to_model : Model) : M (option instance) :=
  match primaryKeyColumn m with
  | None => throw (no_pkey_error "convert" (tableName m))
  | Some _ =>
      let data := toObject m i true in
      let newInstance := fromObject to_model data in
      saveResult <- save to_model newInstance ;;
      if negb (status_true (fst saveResult)) then ret None
      else _ <- delete m i ;; ret (Some (snd saveResult))
  end.

Definition find_static (m : Model) (key : value) : M (option instance) :=
  match primaryKeyColumn m with
  | None => throw (no_pkey_error "find" (tableName m))
  | Some pk =>
      result <- getRow (tableName m) pk key ;;
      ret (match snd result with Some r => Some (fromObject m r) | None => None end)
  end.

Definition delete_static (m : Model) (key : value) : M resp :=
  match primaryKeyColumn m with
  | None => throw (no_pkey_error "find" (tableName m))
  | Some pk => deleteRow (tableName m) pk key
  end.

Definition all (m : Model) : M (list instance) :=
  result <- getRows (tableName m) None None ;;
  ret (map (fromObject m) (match snd result with Some rs => rs | None => [] end)).

Definition setValue_static (m : Model) (field : string) (v : value) (key : value) : M resp :=
  match primaryKeyColumn m with
  | None => throw (no_pkey_error "setValue" (tableName m))
  | Some pk => setValue (tableName m) field v pk key
  end.

(** The per-column helpers of [Model.columns[c]]. *)
Definition column_setValue (m : Model) (c : string) (key v : value) : M resp :=
  match primaryKeyColumn m with
  | None => throw (no_pkey_error "setValue" (tableName m))
  | Some pk => setValue (tableName m) c v pk key
  end.

Definition column_fetch (m : Model) (c : string) (v : value) : M (list instance) :=
  result <- getRows (tableName m) (Some (c, v)) None ;;
  ret (map (fromObject m) (match snd result with Some rs => rs | None => [] end)).

Definition column_updateValues (m : Model) (c : string) (new_value : value)
  (where_column : string) (where_value : value) : M resp :=
  setValue (tableName m) c new_value where_column where_value.


(** ** Maintenance *)

Section Maintenance.

Variable opts : Options.

Definition get_busy : M bool := fun s => Done (busy s) s.
Definition put_busy (b : bool) : M unit := fun s => Done tt (set_busy b s).

Definition unlink (f : path) : M bool := fun s =>
  match fs_unlink f (fs s) with
  | Some x => Done true (set_fs x s)
  | None => Done false s
  end.

Definition copyFile (src dst : path) : M bool := fun s =>
  match fs_copy src dst (fs s) with
  | Some x => Done true (set_fs x s)
  | None => Done false s
  end.

Definition backup (arg : option path) : M resp :=
  b <- get_busy ;;
  if b then ret (mkResp 429 (Some false) None)
  else
    let f := match arg with None | Some [] => backup_filename opts | Some p => p end in
    _ <- mkdir_quiet (dirname f) ;;
    u <- unlink f ;;
    if negb u then ret (mkResp (-4082) (Some false) None)
    else
      _ <- put_busy true ;;
      c <- copyFile (filename opts) f ;;
      if negb c then ret R500
      else _ <- put_busy false ;; ret R200.

Definition vacuum : M resp :=
  b <- get_busy ;;
  if b then ret (mkResp 429 (Some false) None)
  else
    _ <- put_busy true ;;
    o <- run SVacuum ;;
    _ <- put_busy false ;;
    ret (ok_or_500 o).

Definition clear_timers (s : state) : state :=
  mkState (eng s) (fs s) (ready s) (busy s) false false (rand s).

(** [close()]: [clearInterval] on both timers, a final backup whose result
    is not read, then [db.close]; [close_ok] is the engine's answer to it
    (its [err] callback argument is [null]). *)
Definition close (close_ok : bool) : M resp :=
  _ <- modify clear_timers ;;
  _ <- backup (Some (backup_filename opts)) ;;
  ret (if close_ok then R200 else R500).

End Maintenance.

(** ** Concrete configurations used by the examples below *)

Module Fixtures.

Definition col (n : string) (ty : SQLType) : TableColumn :=
  mkColumn None n ty false false None.
Definition pcol (n : string) (ty : SQLType) : TableColumn :=
  mkColumn None n ty true false None.

Definition items_cols : list TableColumn :=
  [pcol "id" TEXT; col "url" TEXT; col "size" INTEGER].

Definition db_path : path := ["data"; "db.sqlite"].
Definition bak_path : path := ["data"; "db.bak"].

Definition items_opts (du ro : bool) : Options :=
  mkOptions db_path bak_path du ro [("items", items_cols)] true false.

Definition healthy (_ : stmt) : bool := false.
Definition io_ok (_ : io_op) : bool := false.

Definition mk_state (ts : list ptable) (f : stmt -> bool) (files : list (path * string))
  (io : io_op -> bool) (b : bool) : state :=
  mkState (mkEngine ts f []) (mkFs [] files io) false b false false 0.

(** An old layout of "items": column "url" missing, a stale column "legacy". *)
Definition items_old : ptable :=
  mkPTable "items" [("id", TEXT); ("legacy", TEXT)] [[VStr "a"; VStr "x"]].

Definition fail_add_url (s : stmt) : bool :=
  match s with SAddColumn "items" "url" _ => true | _ => false end.

(** The items model, a "done" model with a defaulted column, a key-less one. *)
Definition items : Model := mkModel "items" items_cols.
Definition queue : Model := mkModel "queue" [pcol "id" TEXT; col "url" TEXT].
Definition done_ : Model :=
  mkModel "done" [pcol "id" TEXT; col "url" TEXT;
                  mkColumn None "size" INTEGER false false (Some (VInt 0))].

Definition items_row : ptable :=
  mkPTable "items" [("id", TEXT); ("url", TEXT); ("size", INTEGER)]
           [[VStr "a"; VStr "http://x"; VInt 10]].

Definition fail_select (s : stmt) : bool :=
  match s with SSelectCol _ _ _ => true | _ => false end.

Definition loaded_item : instance :=
  fromObject items [("id", VStr "a"); ("url", VStr "http://x"); ("size", VInt 10)].

Definition edited_item : instance :=
  mkInst (oset "url" (VStr "http://y") (cur loaded_item)) (orig loaded_item).

Definition queue_table : ptable :=
  mkPTable "queue" [("id", TEXT); ("url", TEXT)] [[VStr "a"; VStr "http://new"]].
Definition done_empty : ptable :=
  mkPTable "done" [("id", TEXT); ("url", TEXT); ("size", INTEGER)] [].
Definition done_taken : ptable :=
  mkPTable "done" [("id", TEXT); ("url", TEXT); ("size", INTEGER)]
           [[VStr "a"; VStr "http://old"; VInt 5]].
Definition queued_item : instance :=
  fromObject queue [("id", VStr "a"); ("url", VStr "http://new")].

Definition fail_copy (o : io_op) : bool :=
  match o with IOCopy _ _ => true | _ => false end.

Definition logs : Model := mkModel "logs" [col "msg" TEXT; col "at" INTEGER].

(** The default of [nth] over a schema. *)
Definition dcol : TableColumn := mkColumn None "" TEXT false false None.

(** "items" with its row "a", alone or beside an empty "done". *)
Definition st_items : state := mk_state [items_row] healthy [] io_ok false.
Definition st_items_done : state := mk_state [items_row; done_empty] healthy [] io_ok false.
Definition st_empty : state := mk_state [] healthy [] io_ok false.

(** Storage file and a previous backup on disk. *)
Definition st_files : state :=
  mk_state [items_row] healthy [(db_path, "DB"); (bak_path, "OLD")] io_ok false.

(** After [open]: ready, both timers running. *)
Definition st_ready : state :=
  mkState (mkEngine [items_row] healthy []) (mkFs [] [(db_path, "DB")] io_ok) true false true true 0.

Definition io_down (_ : io_op) : bool := true.

End Fixtures.

(** ** Migration invariants *)

(** Statements that only read. *)
Definition is_read (st : stmt) : bool :=
  match st with
  | SMasterLookup _ | SMasterAll | SPragma _ | SSelectCol _ _ _ | SSelectRows _ _ _ => true
  | _ => false
  end.

(** Tables the statement may change. *)
Definition affected (st : stmt) : list string :=
  match st with
  | SCreate t _ | SDropTable t | SAddColumn t _ _ | SUpdateAll t _ _ | SDropColumn t _
  | SRenameColumn t _ _ | SInsertValues t _ | SUpdate t _ _ _ _ | SDeleteRows t _ _ _ => [t]
  | SRenameTable a b => [a; b]
  | SInsertSelect dst _ _ | SMoveRows dst _ _ _ _ => [dst]
  | _ => []
  end.

(** What the engine guarantees of a store: unique table names, and every
    table has at least one column and unique column names. *)
Definition wf_cols (cs : list pcolumn) : Prop := cs <> [] /\ NoDup (col_names cs).

Definition wf_tables (ts : list ptable) : Prop :=
  NoDup (map pt_name ts) /\ Forall (fun p => wf_cols (pt_cols p)) ts.

(** A schema as a JS object can hold: unique table names; every table has
    columns, with unique names; no table is named like a temporary table
    of [reorderFields] (names drawn from [Math.random()]). *)
Definition wf_schema (sch : Schema) : Prop :=
  NoDup (map fst sch) /\
  Forall (fun tf => snd tf <> [] /\ NoDup (map name (snd tf)) /\
                    forall n, fst tf <> temp_name n) sch.

(** A physical table matches its declaration. *)
Definition conforms (du ro : bool) (fields : list TableColumn) (cs : list pcolumn) : Prop :=
  (forall f, In f fields -> In (name f) (col_names cs)) /\
  (du = true -> forall c, In c (col_names cs) -> In c (map name fields)) /\
  (ro = true -> every_match fields cs = Some true).

Definition migrated (opts : Options) (ts : list ptable) : Prop :=
  wf_tables ts /\
  (forall t fields, In (t, fields) (schema opts) ->
     exists p, find_table t ts = Some p /\
               conforms (delete_unused opts) (reorder opts) fields (pt_cols p)) /\
  (delete_unused opts = true -> forall p, In p ts -> declared opts (pt_name p) = true).

(** [m] relates the engine before and after each of its settled runs. *)
Definition Stable (R : engine -> engine -> Prop) {A} (m : M A) : Prop :=
  forall s a s', m s = Done a s' -> R (eng s) (eng s').

(** The engine changed no table outside [T] and kept its invariants. *)
Definition frame (T : string -> Prop) (e e' : engine) : Prop :=
  fails e' = fails e /\
  (wf_tables (tables e) -> wf_tables (tables e')) /\
  (forall t, ~ T t -> find_table t (tables e') = find_table t (tables e)).

(** Only reads were issued. *)
Definition read_only (e e' : engine) : Prop :=
  tables e' = tables e /\ fails e' = fails e /\
  exists l, log e' = log e ++ l /\ forallb is_read l = true.

(** From any state whose store is [ts], [m] settles with a result
    satisfying [P] and issues only reads. *)
Definition quiet (ts : list ptable) {A} (P : A -> Prop) (m : M A) : Prop :=
  forall s, tables (eng s) = ts ->
  exists a s', m s = Done a s' /\ P a /\ read_only (eng s) (eng s').

(** * Properties *)

Import Fixtures.

Definition cols_of (t : string) (s : state) : list string :=
  match find_table t (tables (eng s)) with Some p => col_names (pt_cols p) | None => [] end.

Definition rows_of (t : string) (s : state) : list row :=
  match find_table t (tables (eng s)) with Some p => pt_rows p | None => [] end.

(** ** C1: open() and failing migration steps *)

(** C1 (counterexample): with "items" stored as (id, legacy) and the engine
    refusing [ALTER TABLE items ADD COLUMN url], open() goes on with the
    remaining steps of that table (it adds "size" and drops "legacy"),
    reports success, marks the database ready and starts the backup timer. *)
Lemma open_failed_step_reaches_ready :
  fail_add_url (SAddColumn "items" "url" TEXT) = true /\
  match open (items_opts true false) (mk_state [items_old] fail_add_url [] io_ok false) with
  | Done r s' =>
      r = R200 /\ ready s' = true /\ backup_timer s' = true /\
      memb "url" (cols_of "items" s') = false /\
      In (SAddColumn "items" "size" INTEGER) (log (eng s')) /\
      In (SDropColumn "items" "legacy") (log (eng s'))
  | _ => False
  end.
Proof.
  vm_compute. repeat split; simpl; tauto.
Qed.

Lemma fs_mkdir_io (d : path) (f f' : fsys) :
  fs_mkdir d f = Some f' -> io_fails f' = io_fails f.
Proof.
  unfold fs_mkdir. destruct (io_fails f (IOMkdir d)); intros E; inversion E; reflexivity.
Qed.

(** C1 (amended): open() never inspects the result of a migration step.
    Whenever it settles after the storage handle opened, it reports
    [{code: 200, status: true}], marks the database ready and installs the
    enabled timers, whichever steps failed. *)
Theorem open_ready_whatever_migration (opts : Options) (s s' : state) (r : resp)
  (Hhandle : io_fails (fs s) (IOOpenDb (filename opts)) = false)
  (H : open opts s = Done r s') :
  r = R200 /\ ready s' = true /\
  (backup_enabled opts = true -> backup_timer s' = true) /\
  (vacuum_enabled opts = true -> vacuum_timer s' = true).
Proof.
  assert (Hh : forall s1, io_fails (fs s1) = io_fails (fs s) ->
            open_handle opts s1 = Done true (match file_get (filename opts) (files (fs s1)) with
               | Some _ => s1
               | None => set_fs (mkFs (dirs (fs s1)) ((filename opts, "") :: files (fs s1))
                                      (io_fails (fs s1))) s1 end)).
  { intros s1 E. unfold open_handle. rewrite E, Hhandle. destruct (file_get _ _); reflexivity. }
  unfold open, bind, mkdir_quiet in H.
  destruct (fs_mkdir (dirname (filename opts)) (fs s)) as [f|] eqn:Em.
  - rewrite Hh in H by (simpl; apply (fs_mkdir_io _ _ _ Em)).
    simpl in H.
    destruct (for_each _ _ _) as [u s2| s2 | e s2]; try discriminate.
    destruct (getTables _) as [g s3| s3 | e s3]; try discriminate.
    destruct (for_each _ _ _) as [u' s4| s4 | e s4]; try discriminate.
    unfold modify, ret in H. inversion H; subst. simpl.
    repeat split; intros E; rewrite E; reflexivity.
  - rewrite Hh in H by reflexivity.
    simpl in H.
    destruct (for_each _ _ _) as [u s2| s2 | e s2]; try discriminate.
    destruct (getTables _) as [g s3| s3 | e s3]; try discriminate.
    destruct (for_each _ _ _) as [u' s4| s4 | e s4]; try discriminate.
    unfold modify, ret in H. inversion H; subst. simpl.
    repeat split; intros E; rewrite E; reflexivity.
Qed.

(** Witness: the configuration of [open_failed_step_reaches_ready]. *)
Lemma open_ready_whatever_migration_witness :
  io_fails (fs (mk_state [items_old] fail_add_url [] io_ok false))
           (IOOpenDb (filename (items_opts true false))) = false /\
  match open (items_opts true false) (mk_state [items_old] fail_add_url [] io_ok false) with
  | Done r s' => r = R200 /\ ready s' = true
  | _ => False
  end.
Proof.
  split; [reflexivity|].
  destruct (open (items_opts true false) (mk_state [items_old] fail_add_url [] io_ok false))
    as [r s'|s'|e s'] eqn:E; [|vm_compute in E; discriminate..].
  destruct (open_ready_whatever_migration (items_opts true false)
              (mk_state [items_old] fail_add_url [] io_ok false) s' r eq_refl E)
    as [Hr [Hready _]].
  split; assumption.
Defined.

(** ** C2: save() *)

(** C2 (failing input): row "a" of "items" exists and the user changed
    "url"; the existence probe [SELECT id ... LIMIT 1] fails with an engine
    error.  save() reads the failed probe as "no row", inserts all columns
    and reports success: "items" now holds two rows with key "a" and no
    UPDATE was issued. *)
Theorem save_failed_probe_inserts_duplicate :
  match save items edited_item (mk_state [items_row] fail_select [] io_ok false) with
  | Done (r, _) s' =>
      status r = Some true /\
      rows_of "items" s' = [[VStr "a"; VStr "http://x"; VInt 10];
                            [VStr "a"; VStr "http://y"; VInt 10]] /\
      log (eng s') = [SInsertValues "items" [VStr "a"; VStr "http://y"; VInt 10]]
  | _ => False
  end.
Proof.
  vm_compute. repeat split.
Qed.

(** ** C3, C4, C5: backup() *)

(** C3 (failing input): no backup file exists yet and the signal is clear.
    The [unlink] fails (nothing to remove), backup() returns the sentinel
    -4082 at once and copies nothing: no backup file is created. *)
Theorem backup_first_run_copies_nothing :
  match backup (items_opts false false) None
          (mk_state [] healthy [(db_path, "DB")] io_ok false) with
  | Done r s' =>
      r = mkResp (-4082) (Some false) None /\
      file_get bak_path (files (fs s')) = None /\
      files (fs s') = [(db_path, "DB")]
  | _ => False
  end.
Proof.
  vm_compute. repeat split.
Qed.

(** C4 (failing input): the stale backup is removed, then the copy fails
    (an I/O error).  backup() returns 500 with the busy signal still set, and
    the next backup() and vacuum() are refused with 429. *)
Theorem backup_copy_failure_leaves_busy :
  match backup (items_opts false false) None
          (mk_state [] healthy [(db_path, "DB"); (bak_path, "OLD")] fail_copy false) with
  | Done r s' =>
      r = R500 /\ busy s' = true /\
      backup (items_opts false false) None s' = Done (mkResp 429 (Some false) None) s' /\
      vacuum s' = Done (mkResp 429 (Some false) None) s'
  | _ => False
  end.
Proof.
  vm_compute. repeat split.
Qed.

(** C5: while the busy signal is set, backup() returns 429 with success
    false and leaves the whole state (files, directories, busy signal,
    engine) as it was. *)
Theorem backup_busy_no_effect (opts : Options) (arg : option path) (s : state)
  (Hbusy : busy s = true) :
  backup opts arg s = Done (mkResp 429 (Some false) None) s.
Proof.
  unfold backup, bind, get_busy. rewrite Hbusy. reflexivity.
Qed.

Lemma backup_busy_no_effect_witness :
  busy (mk_state [] healthy [(db_path, "DB")] io_ok true) = true /\
  backup (items_opts false false) None (mk_state [] healthy [(db_path, "DB")] io_ok true)
  = Done (mkResp 429 (Some false) None) (mk_state [] healthy [(db_path, "DB")] io_ok true).
Proof.
  split; [reflexivity|]. apply backup_busy_no_effect. reflexivity.
Defined.

(** ** C6, C7: convert() *)

(** C6 (failing input): "done" declares "size" with default 0 and "queue"
    has no such field.  The converted instance has [size = undefined] and
    the row written to "done" holds NULL there, not the default. *)
Theorem convert_missing_field_not_defaulted :
  default_value (nth 2 (mschema done_) (col "" TEXT)) = Some (VInt 0) /\
  match convert queue queued_item done_
          (mk_state [queue_table; done_empty] healthy [] io_ok false) with
  | Done (Some i) s' =>
      oget "size" (cur i) = VNull /\
      rows_of "done" s' = [[VStr "a"; VStr "http://new"; VNull]]
  | _ => False
  end.
Proof.
  vm_compute. repeat split.
Qed.

(** C7 (failing input): "done" already holds a row with key "a".  The new
    instance built by convert() has its snapshot equal to its values, so
    save() takes the update path with no changed column, writes nothing
    and reports success; convert() then deletes the "queue" row.  The
    "done" row keeps its old url: the converted data is lost. *)
Theorem convert_deletes_unpersisted_source :
  match convert queue queued_item done_
          (mk_state [queue_table; done_taken] healthy [] io_ok false) with
  | Done (Some i) s' =>
      oget "url" (cur i) = VStr "http://new" /\
      rows_of "queue" s' = [] /\
      rows_of "done" s' = [[VStr "a"; VStr "http://old"; VInt 5]]
  | _ => False
  end.
Proof.
  vm_compute. repeat split.
Qed.

(** ** C9: identity operations on a key-less table *)

Lemma primaryKeyColumn_keyless (m : Model) :
  forallb (fun c => negb (pkey c)) (mschema m) = true -> primaryKeyColumn m = None.
Proof.
  unfold primaryKeyColumn. induction (mschema m) as [|c l IH]; simpl; [reflexivity|].
  destruct (pkey c); simpl; [discriminate|]. exact IH.
Qed.

(** C9: for a table whose columns are all declared without [pkey], every
    identity operation rejects its promise with the "No primary key"
    configuration error, in the state it was called in: no engine
    statement has run.  [all] and the per-column [fetch] always settle with
    a list of instances ([create] is a plain constructor call). *)
Theorem keyless_identity_ops_rejected (m : Model)
  (Hkeyless : forallb (fun c => negb (pkey c)) (mschema m) = true) :
  (forall k s, find_static m k s = Reject (no_pkey_error "find" (tableName m)) s) /\
  (forall k s, delete_static m k s = Reject (no_pkey_error "find" (tableName m)) s) /\
  (forall f v k s, setValue_static m f v k s = Reject (no_pkey_error "setValue" (tableName m)) s) /\
  (forall i s, save m i s = Reject (no_pkey_error "save" (tableName m)) s) /\
  (forall i s, delete m i s = Reject (no_pkey_error "delete" (tableName m)) s) /\
  (forall i d s, move m i d s = Reject (no_pkey_error "move" (tableName m)) s) /\
  (forall i d s, convert m i d s = Reject (no_pkey_error "convert" (tableName m)) s) /\
  (forall c k v s, column_setValue m c k v s = Reject (no_pkey_error "setValue" (tableName m)) s) /\
  (forall s, exists l s', all m s = Done l s') /\
  (forall c v s, exists l s', column_fetch m c v s = Done l s').
Proof.
  pose proof (primaryKeyColumn_keyless m Hkeyless) as Hpk.
  unfold find_static, delete_static, setValue_static, save, delete, move, convert,
    column_setValue. rewrite Hpk.
  repeat split; try reflexivity; intros;
    unfold all, column_fetch, getRows, bind, run, ret;
    destruct (exec _ (eng s)) as [[o e']|]; eexists; eexists; reflexivity.
Qed.

Lemma keyless_identity_ops_rejected_witness :
  forallb (fun c => negb (pkey c)) (mschema logs) = true /\
  find_static logs (VStr "x") (mk_state [] healthy [] io_ok false)
  = Reject (no_pkey_error "find" "logs") (mk_state [] healthy [] io_ok false).
Proof.
  split; [reflexivity|].
  exact (proj1 (keyless_identity_ops_rejected logs eq_refl) (VStr "x")
           (mk_state [] healthy [] io_ok false)).
Defined.

(** ** C10: an UPDATE that matches no row *)

Lemma index_of_memb (x : string) (l : list string) :
  memb x l = true -> exists i, index_of x l = Some i.
Proof.
  induction l as [|y l IH]; simpl; [discriminate|].
  destruct (String.eqb x y) eqn:E; simpl.
  - intros _. exists 0%nat. reflexivity.
  - intros H. destruct (IH H) as [i Hi]. rewrite Hi. exists (S i). reflexivity.
Qed.

(** C10: when [UPDATE t SET f=? WHERE sf=?] runs without engine error and
    matches no row, [Database.setValue] settles with
    [{code: 200, status: false, changes: 0}], and so do [Model.setValue],
    the per-column [setValue] (keyed on the primary key [sf]) and
    [updateValues]. *)
Theorem setValue_no_match (t f sf : string) (v sv : value) (s : state) (p : ptable)
  (Hok : fails (eng s) (SUpdate t f v sf sv) = false)
  (Ht : find_table t (tables (eng s)) = Some p)
  (Hf : memb f (col_names (pt_cols p)) = true)
  (Hsf : memb sf (col_names (pt_cols p)) = true)
  (Hnone : filter (matches (pt_cols p) sf sv) (pt_rows p) = []) :
  exists s',
    setValue t f v sf sv s = Done (mkResp 200 (Some false) (Some 0)) s' /\
    (forall m, tableName m = t -> primaryKeyColumn m = Some sf ->
       setValue_static m f v sv s = Done (mkResp 200 (Some false) (Some 0)) s' /\
       column_setValue m f sv v s = Done (mkResp 200 (Some false) (Some 0)) s') /\
    (forall m, tableName m = t ->
       column_updateValues m f v sf sv s = Done (mkResp 200 (Some false) (Some 0)) s').
Proof.
  destruct (index_of_memb _ _ Hf) as [i Hi].
  destruct (index_of_memb _ _ Hsf) as [j Hj].
  assert (Hset : exists s', setValue t f v sf sv s = Done (mkResp 200 (Some false) (Some 0)) s').
  { unfold setValue, bind, run, exec. rewrite Hok. simpl. rewrite Ht, Hi, Hj, Hnone.
    eexists. reflexivity. }
  destruct Hset as [s' Hs']. exists s'. split; [exact Hs'|]. split.
  - intros m Hm Hpk. unfold setValue_static, column_setValue. rewrite Hpk, Hm.
    split; exact Hs'.
  - intros m Hm. unfold column_updateValues. rewrite Hm. exact Hs'.
Qed.

Lemma setValue_no_match_witness :
  exists s',
    setValue "items" "url" (VStr "http://y") "id" (VStr "zzz")
      (mk_state [items_row] healthy [] io_ok false)
    = Done (mkResp 200 (Some false) (Some 0)) s'.
Proof.
  destruct (setValue_no_match "items" "url" "id" (VStr "http://y") (VStr "zzz")
              (mk_state [items_row] healthy [] io_ok false) items_row
              eq_refl eq_refl eq_refl eq_refl eq_refl) as [s' [H _]].
  exists s'. exact H.
Defined.

(** ** C8: migration is idempotent *)

Module Idempotence.

(** *** Stable computations compose *)

Section Stability.

Variable R : engine -> engine -> Prop.
Hypothesis R_refl : forall e, R e e.
Hypothesis R_trans : forall e1 e2 e3, R e1 e2 -> R e2 e3 -> R e1 e3.

Lemma stable_ret {A} (a : A) : Stable R (ret a).
Proof. intros s b s' H. inversion H; subst. apply R_refl. Qed.

Lemma stable_hang {A} : Stable R (@hang A).
Proof. intros s b s' H. discriminate. Qed.

Lemma stable_bind {A B} (m : M A) (k : A -> M B) :
  Stable R m -> (forall a, Stable R (k a)) -> Stable R (bind m k).
Proof.
  intros Hm Hk s b s' H. unfold bind in H.
  destruct (m s) as [a s1| s1 | e s1] eqn:E; try discriminate.
  apply R_trans with (eng s1); [exact (Hm _ _ _ E) | exact (Hk a _ _ _ H)].
Qed.

Lemma stable_fold_m {A B} (l : list A) (acc : B) (f : B -> A -> M B) :
  (forall b x, In x l -> Stable R (f b x)) -> Stable R (fold_m l acc f).
Proof.
  revert acc. induction l as [|x l IH]; intros acc Hf; simpl.
  - apply stable_ret.
  - apply stable_bind; [apply Hf; left; reflexivity|].
    intros a. apply IH. intros b y Hy. apply Hf. right. exact Hy.
Qed.

Lemma stable_for_each {A} (l : list A) (f : A -> M unit) :
  (forall x, In x l -> Stable R (f x)) -> Stable R (for_each l f).
Proof. intros Hf. apply stable_fold_m. intros _ x Hx. apply Hf, Hx. Qed.

Lemma stable_run (st : stmt) :
  (forall e o e', exec st e = Some (o, e') -> R e e') -> Stable R (run st).
Proof.
  intros Hx s o s' H. unfold run in H.
  destruct (exec st (eng s)) as [[o' e']|] eqn:E; inversion H; subst; simpl.
  - exact (Hx _ _ _ E).
  - apply R_refl.
Qed.

(** Computations that leave the engine alone. *)
Lemma stable_pure {A} (m : M A) : (forall s a s', m s = Done a s' -> eng s' = eng s) -> Stable R m.
Proof. intros H s a s' E. rewrite (H _ _ _ E). apply R_refl. Qed.

End Stability.

(** *** The table store *)

Lemma find_table_name t ts p : find_table t ts = Some p -> pt_name p = t.
Proof.
  induction ts as [|q ts IH]; simpl; [discriminate|].
  destruct (String.eqb_spec (pt_name q) t); [intros E; inversion E; subst; auto | exact IH].
Qed.

Lemma find_table_In t ts p : find_table t ts = Some p -> In p ts.
Proof.
  induction ts as [|q ts IH]; simpl; [discriminate|].
  destruct (String.eqb (pt_name q) t); [intros E; inversion E; auto | intros E; right; auto].
Qed.

Lemma find_table_None t ts : find_table t ts = None <-> ~ In t (map pt_name ts).
Proof.
  induction ts as [|q ts IH]; simpl; [tauto|].
  destruct (String.eqb_spec (pt_name q) t) as [E|E].
  - split; [discriminate|]. intros H. exfalso. apply H. left. exact E.
  - rewrite IH. intuition.
Qed.

Lemma find_table_Some_In t ts : In t (map pt_name ts) -> exists p, find_table t ts = Some p.
Proof.
  intros H. destruct (find_table t ts) as [p|] eqn:E; [eauto|].
  apply find_table_None in E. contradiction.
Qed.

Lemma has_table_find t ts : has_table t ts = true <-> exists p, find_table t ts = Some p.
Proof.
  unfold has_table. destruct (find_table t ts); split; intros H; eauto.
  - discriminate.
  - destruct H as [p E]; discriminate.
Qed.

Lemma find_table_replace t p ts :
  find_table t (replace_table p ts) =
  if String.eqb (pt_name p) t then
    match find_table t ts with Some _ => Some p | None => None end
  else find_table t ts.
Proof.
  unfold replace_table. induction ts as [|q ts IH]; simpl.
  - destruct (String.eqb (pt_name p) t); reflexivity.
  - destruct (String.eqb_spec (pt_name q) (pt_name p)) as [E|E]; simpl.
    + destruct (String.eqb_spec (pt_name p) t) as [E'|E'].
      * rewrite E, E', String.eqb_refl. reflexivity.
      * rewrite E. destruct (String.eqb_spec (pt_name p) t); [contradiction|]. exact IH.
    + rewrite IH. destruct (String.eqb_spec (pt_name p) t) as [E'|E']; simpl;
        destruct (String.eqb_spec (pt_name q) t) as [E''|E'']; try reflexivity.
      subst. contradiction.
Qed.

Lemma find_table_drop t t' ts :
  find_table t' (drop_table t ts) = if String.eqb t t' then None else find_table t' ts.
Proof.
  unfold drop_table. induction ts as [|q ts IH]; simpl.
  - destruct (String.eqb t t'); reflexivity.
  - destruct (String.eqb_spec (pt_name q) t) as [E|E]; simpl.
    + rewrite IH. destruct (String.eqb_spec t t') as [E'|E']; [reflexivity|].
      destruct (String.eqb_spec (pt_name q) t'); [congruence|reflexivity].
    + rewrite IH. destruct (String.eqb_spec t t') as [E'|E'];
        destruct (String.eqb_spec (pt_name q) t') as [E''|E'']; try reflexivity.
      congruence.
Qed.

Lemma find_table_app t ts q :
  find_table t (ts ++ [q]) =
  match find_table t ts with
  | Some p => Some p
  | None => if String.eqb (pt_name q) t then Some q else None
  end.
Proof.
  induction ts as [|p ts IH]; simpl; [reflexivity|].
  destruct (String.eqb (pt_name p) t); [reflexivity | exact IH].
Qed.

Lemma ren_table_hit a b q :
  pt_name q = a -> ren_table a b q = mkPTable b (pt_cols q) (pt_rows q).
Proof. intros E. unfold ren_table. rewrite E, String.eqb_refl. reflexivity. Qed.

Lemma ren_table_miss a b q : pt_name q <> a -> ren_table a b q = q.
Proof.
  intros E. unfold ren_table. destruct (String.eqb_spec (pt_name q) a); [contradiction|reflexivity].
Qed.

Lemma find_table_ren_other a b t ts :
  t <> a -> t <> b -> find_table t (map (ren_table a b) ts) = find_table t ts.
Proof.
  intros Ha Hb. induction ts as [|q ts IH]; simpl; [reflexivity|].
  destruct (String.eqb_spec (pt_name q) a) as [E|E].
  - rewrite (ren_table_hit _ _ _ E). simpl.
    destruct (String.eqb_spec b t); [congruence|].
    destruct (String.eqb_spec (pt_name q) t); [congruence|]. exact IH.
  - rewrite (ren_table_miss _ _ _ E), IH. reflexivity.
Qed.

Lemma find_table_ren_new a b ts :
  ~ In b (map pt_name ts) ->
  find_table b (map (ren_table a b) ts) =
  option_map (fun q => mkPTable b (pt_cols q) (pt_rows q)) (find_table a ts).
Proof.
  induction ts as [|q ts IH]; simpl; intros Hb; [reflexivity|].
  destruct (String.eqb_spec (pt_name q) a) as [E|E].
  - rewrite (ren_table_hit _ _ _ E). simpl. rewrite String.eqb_refl.
    destruct (String.eqb_spec (pt_name q) a); [reflexivity|contradiction].
  - rewrite (ren_table_miss _ _ _ E).
    destruct (String.eqb_spec (pt_name q) b) as [E'|E']; [exfalso; apply Hb; left; exact E'|].
    destruct (String.eqb_spec (pt_name q) a) as [E''|E'']; [contradiction|].
    apply IH. intros H. apply Hb. right. exact H.
Qed.

Lemma find_table_ren_old a b ts :
  a <> b -> find_table a (map (ren_table a b) ts) = None.
Proof.
  intros Hab. induction ts as [|q ts IH]; simpl; [reflexivity|].
  destruct (String.eqb_spec (pt_name q) a) as [E|E].
  - rewrite (ren_table_hit _ _ _ E). simpl.
    destruct (String.eqb_spec b a); [congruence|]. exact IH.
  - rewrite (ren_table_miss _ _ _ E).
    destruct (String.eqb_spec (pt_name q) a); [contradiction|]. exact IH.
Qed.

Lemma memb_In x l : memb x l = true <-> In x l.
Proof.
  unfold memb. rewrite existsb_exists. split.
  - intros [y [Hy E]]. apply String.eqb_eq in E. subst. exact Hy.
  - intros H. exists x. split; [exact H | apply String.eqb_refl].
Qed.

Lemma memb_false x l : memb x l = false <-> ~ In x l.
Proof.
  rewrite <- memb_In. destruct (memb x l); split; intros H; try discriminate; auto.
  exfalso; auto.
Qed.

Lemma NoDup_map_ren a b l : NoDup l -> ~ In b l -> NoDup (map (ren_name a b) l).
Proof.
  induction l as [|h l IH]; simpl; intros Hn Hb; [constructor|].
  inversion Hn as [|? ? Hh Hl]; subst. constructor.
  - rewrite in_map_iff. intros [x [Ex Hx]]. unfold ren_name in *.
    destruct (String.eqb_spec h a); destruct (String.eqb_spec x a); subst.
    + contradiction.
    + apply Hb. right. exact Hx.
    + apply Hb. left. reflexivity.
    + contradiction.
  - apply IH; [exact Hl|]. intros H. apply Hb. right. exact H.
Qed.

Lemma names_ren_table a b ts :
  map pt_name (map (ren_table a b) ts) = map (ren_name a b) (map pt_name ts).
Proof.
  induction ts as [|q ts IH]; simpl; [reflexivity|]. rewrite IH. f_equal.
  unfold ren_table, ren_name. destruct (String.eqb (pt_name q) a); reflexivity.
Qed.

Lemma names_rename_col a b cs :
  col_names (rename_col a b cs) = map (ren_name a b) (col_names cs).
Proof.
  unfold col_names, rename_col. rewrite !map_map. apply map_ext. intros c.
  unfold ren_name. destruct (String.eqb (fst c) a); reflexivity.
Qed.

Lemma names_replace p ts :
  map pt_name (replace_table p ts) = map pt_name ts.
Proof.
  unfold replace_table. rewrite map_map. apply map_ext. intros q.
  destruct (String.eqb_spec (pt_name q) (pt_name p)); auto.
Qed.

Lemma remove_nth_map {A B} (f : A -> B) i l : map f (remove_nth i l) = remove_nth i (map f l).
Proof.
  revert i. induction l as [|x l IH]; intros [|i]; simpl; auto. rewrite IH. reflexivity.
Qed.

Lemma remove_nth_incl {A} i (l : list A) x : In x (remove_nth i l) -> In x l.
Proof.
  revert i. induction l as [|y l IH]; intros [|i]; simpl; auto.
  intros [E|H]; [left; exact E | right; exact (IH i H)].
Qed.

Lemma NoDup_remove_nth {A} i (l : list A) : NoDup l -> NoDup (remove_nth i l).
Proof.
  revert i. induction l as [|y l IH]; intros [|i] Hn; simpl; auto.
  - inversion Hn; auto.
  - inversion Hn as [|? ? Hy Hl]; subst. constructor; [|auto].
    intros H. apply Hy. exact (remove_nth_incl _ _ _ H).
Qed.

Lemma index_of_lt x l i : index_of x l = Some i -> (i < length l)%nat.
Proof.
  revert i. induction l as [|y l IH]; simpl; intros i; [discriminate|].
  destruct (String.eqb x y); [intros E; inversion E; lia|].
  destruct (index_of x l) as [j|]; simpl; intros E; inversion E; subst.
  specialize (IH j eq_refl). lia.
Qed.

Lemma length_remove_nth {A} i (l : list A) :
  (i < length l)%nat -> length (remove_nth i l) = (length l - 1)%nat.
Proof.
  revert i. induction l as [|y l IH]; intros [|i]; simpl; intros H; try lia.
  rewrite IH by lia. lia.
Qed.

Lemma wf_cols_add cs c ty : wf_cols cs -> ~ In c (col_names cs) -> wf_cols (cs ++ [(c, ty)]).
Proof.
  intros [Hne Hnd] Hc. split.
  - destruct cs; [contradiction|discriminate].
  - unfold col_names in *. rewrite map_app. simpl.
    apply NoDup_app; auto.
    + constructor; [auto | constructor].
    + intros x Hx [E|[]]. subst. contradiction.
Qed.

Lemma wf_cols_drop cs c i :
  wf_cols cs -> index_of c (col_names cs) = Some i -> length cs <> 1%nat ->
  wf_cols (remove_nth i cs).
Proof.
  intros [Hne Hnd] Hi Hl. pose proof (index_of_lt _ _ _ Hi) as Hlt.
  unfold col_names in Hlt. rewrite length_map in Hlt. split.
  - intros E. assert (length (remove_nth i cs) = 0%nat) by (rewrite E; reflexivity).
    rewrite length_remove_nth in H by exact Hlt. destruct cs; simpl in *; [contradiction|lia].
  - unfold col_names. rewrite remove_nth_map. apply NoDup_remove_nth. exact Hnd.
Qed.

Lemma wf_cols_ren cs a b : wf_cols cs -> ~ In b (col_names cs) -> wf_cols (rename_col a b cs).
Proof.
  intros [Hne Hnd] Hb. split.
  - unfold rename_col. destruct cs; [contradiction|discriminate].
  - rewrite names_rename_col. apply NoDup_map_ren; auto.
Qed.

Lemma wf_tables_cols ts t p : wf_tables ts -> find_table t ts = Some p -> wf_cols (pt_cols p).
Proof.
  intros [_ Hf] E. rewrite Forall_forall in Hf. apply Hf. exact (find_table_In _ _ _ E).
Qed.

Lemma wf_tables_replace ts q : wf_tables ts -> wf_cols (pt_cols q) -> wf_tables (replace_table q ts).
Proof.
  intros [Hnd Hf] Hq. split.
  - rewrite names_replace. exact Hnd.
  - unfold replace_table. rewrite Forall_map. rewrite Forall_forall in *. intros x Hx.
    destruct (String.eqb (pt_name x) (pt_name q)); auto.
Qed.

Lemma wf_tables_drop ts t : wf_tables ts -> wf_tables (drop_table t ts).
Proof.
  intros [Hnd Hf]. unfold drop_table. split.
  - induction ts as [|q ts IH]; simpl; [constructor|].
    inversion Hnd as [|? ? Hq Hl]; subst. inversion Hf; subst.
    destruct (negb (String.eqb (pt_name q) t)); simpl; auto.
    constructor; auto. intros H. apply Hq.
    rewrite in_map_iff in *. destruct H as [x [Ex Hx]]. apply filter_In in Hx.
    exists x. split; [exact Ex | apply Hx].
  - rewrite Forall_forall in *. intros x Hx. apply filter_In in Hx. apply Hf. apply Hx.
Qed.

Lemma wf_tables_app ts q :
  wf_tables ts -> ~ In (pt_name q) (map pt_name ts) -> wf_cols (pt_cols q) ->
  wf_tables (ts ++ [q]).
Proof.
  intros [Hnd Hf] Hn Hq. split.
  - rewrite map_app. simpl. apply NoDup_app; auto.
    + constructor; [auto | constructor].
    + intros x Hx [E|[]]. subst. contradiction.
  - apply Forall_app. split; auto.
Qed.

Lemma wf_tables_ren ts a b : wf_tables ts -> ~ In b (map pt_name ts) -> wf_tables (map (ren_table a b) ts).
Proof.
  intros [Hnd Hf] Hb. split.
  - rewrite names_ren_table. apply NoDup_map_ren; auto.
  - rewrite Forall_map. rewrite Forall_forall in *. intros q Hq.
    unfold ren_table. destruct (String.eqb (pt_name q) a); simpl; auto.
Qed.

Lemma nodupb_NoDup l : nodupb l = true -> NoDup l.
Proof.
  induction l as [|x l IH]; simpl; intros H; [constructor|].
  apply andb_true_iff in H as [H1 H2]. apply negb_true_iff in H1.
  constructor; [apply memb_false; exact H1 | exact (IH H2)].
Qed.

Lemma has_table_false t ts : has_table t ts = false -> ~ In t (map pt_name ts).
Proof.
  unfold has_table. destruct (find_table t ts) eqn:E; [discriminate|].
  intros _. apply find_table_None. exact E.
Qed.

(** *** One statement *)

Lemma frame_log T e st : frame T e (with_log e st).
Proof. split; [reflexivity|]. split; [auto | reflexivity]. Qed.

Lemma frame_replace T e q p st :
  T (pt_name q) -> find_table (pt_name q) (tables e) = Some p ->
  (wf_cols (pt_cols p) -> wf_cols (pt_cols q)) ->
  frame T e (with_tables e (replace_table q (tables e)) st).
Proof.
  intros HT Hf Hw. split; [reflexivity|]. split.
  - intros Hwf. simpl. apply wf_tables_replace; auto. apply Hw.
    exact (wf_tables_cols _ _ _ Hwf Hf).
  - intros t Ht. simpl. rewrite find_table_replace.
    destruct (String.eqb_spec (pt_name q) t); [subst; contradiction | reflexivity].
Qed.

Ltac split_exec H :=
  repeat match type of H with
  | context [match ?x with _ => _ end] => let E := fresh "E" in destruct x eqn:E
  end;
  try discriminate H; inversion H; subst; clear H.

Lemma exec_frame st e o e' :
  exec st e = Some (o, e') -> frame (fun t => In t (affected st)) e e'.
Proof.
  unfold exec. destruct (fails e st); [discriminate|].
  intros H. destruct st; simpl in H; split_exec H; try apply frame_log.
  - (* CREATE TABLE *)
    apply orb_false_iff in E as [E E1]. apply orb_false_iff in E as [E E0].
    split; [reflexivity|]. split.
    + intros Hw. simpl. apply wf_tables_app; simpl; auto.
      * apply has_table_false. exact E.
      * split; [destruct cols; [discriminate | congruence]|].
        apply nodupb_NoDup. apply negb_false_iff in E0. exact E0.
    + intros t' Ht. simpl. rewrite find_table_app. destruct (find_table t' (tables e)); auto.
      simpl. destruct (String.eqb_spec t t'); [subst; exfalso; apply Ht; left; reflexivity | reflexivity].
  - (* DROP TABLE *)
    split; [reflexivity|]. split.
    + intros Hw. apply wf_tables_drop. exact Hw.
    + intros t' Ht. simpl. rewrite find_table_drop.
      destruct (String.eqb_spec t t'); [subst; exfalso; apply Ht; left; reflexivity | reflexivity].
  - (* RENAME TABLE *)
    apply andb_true_iff in E as [Ea Eb]. apply negb_true_iff in Eb.
    split; [reflexivity|]. split.
    + intros Hw. apply wf_tables_ren; [exact Hw | apply has_table_false; exact Eb].
    + intros t' Ht. simpl. apply find_table_ren_other; intros Et; apply Ht; simpl; auto.
  - (* ADD COLUMN *)
    apply (frame_replace _ _ _ p); simpl; auto.
    intros Hw. apply wf_cols_add; [exact Hw | apply memb_false; exact E0].
  - apply (frame_replace _ _ _ p); simpl; auto.
  - (* DROP COLUMN *)
    apply (frame_replace _ _ _ p); simpl; auto.
    intros Hw. apply (wf_cols_drop _ c n); auto. apply Nat.eqb_neq. exact E1.
  - (* RENAME COLUMN *)
    apply andb_true_iff in E0 as [Ea Eb]. apply negb_true_iff in Eb.
    apply (frame_replace _ _ _ p); simpl; auto.
    intros Hw. apply wf_cols_ren; [exact Hw | apply memb_false; exact Eb].
  - apply (frame_replace _ _ _ p); simpl; auto.
  - apply (frame_replace _ _ _ p); simpl; auto.
  - apply (frame_replace _ _ _ p); simpl; auto.
  - apply (frame_replace _ _ _ p); simpl; auto.
  - apply (frame_replace _ _ _ p); simpl; auto.
Qed.

Lemma frame_refl T e : frame T e e.
Proof. split; [reflexivity|]. split; auto. Qed.

Lemma frame_trans T e1 e2 e3 : frame T e1 e2 -> frame T e2 e3 -> frame T e1 e3.
Proof.
  intros [F1 [W1 X1]] [F2 [W2 X2]]. split; [congruence|]. split; [auto|].
  intros t Ht. rewrite X2, X1; auto.
Qed.

Lemma frame_mono (T T' : string -> Prop) e e' :
  (forall t, T t -> T' t) -> frame T e e' -> frame T' e e'.
Proof.
  intros HT [F [W X]]. split; [exact F|]. split; [exact W|].
  intros t Ht. apply X. intros Ht'. apply Ht, HT, Ht'.
Qed.

Lemma read_only_refl e : read_only e e.
Proof.
  split; [reflexivity|]. split; [reflexivity|]. exists []. rewrite app_nil_r. split; reflexivity.
Qed.

Lemma read_only_trans e1 e2 e3 : read_only e1 e2 -> read_only e2 e3 -> read_only e1 e3.
Proof.
  intros [T1 [F1 [l1 [L1 R1]]]] [T2 [F2 [l2 [L2 R2]]]]. split; [congruence|]. split; [congruence|].
  exists (l1 ++ l2). split.
  - rewrite L2, L1, app_assoc. reflexivity.
  - rewrite forallb_app, R1, R2. reflexivity.
Qed.

Lemma read_only_log e st : is_read st = true -> read_only e (with_log e st).
Proof.
  intros H. split; [reflexivity|]. split; [reflexivity|]. exists [st]. simpl.
  rewrite H. split; reflexivity.
Qed.

(** *** Computations that only read *)

Lemma quiet_ret ts {A} (P : A -> Prop) a : P a -> quiet ts P (ret a).
Proof. intros Ha s Hs. exists a, s. split; [reflexivity|]. split; [exact Ha | apply read_only_refl]. Qed.

Lemma quiet_bind ts {A B} (P : A -> Prop) (Q : B -> Prop) (m : M A) (k : A -> M B) :
  quiet ts P m -> (forall a, P a -> quiet ts Q (k a)) -> quiet ts Q (bind m k).
Proof.
  intros Hm Hk s Hs. destruct (Hm s Hs) as [a [s1 [E [Pa R1]]]].
  destruct (Hk a Pa s1) as [b [s2 [E2 [Qb R2]]]].
  { destruct R1 as [T1 _]. congruence. }
  exists b, s2. unfold bind. rewrite E. split; [exact E2|]. split; [exact Qb|].
  exact (read_only_trans _ _ _ R1 R2).
Qed.

Lemma quiet_weaken ts {A} (P Q : A -> Prop) m : (forall a, P a -> Q a) -> quiet ts P m -> quiet ts Q m.
Proof.
  intros HPQ Hm s Hs. destruct (Hm s Hs) as [a [s' [E [Pa R]]]]. exists a, s'. auto.
Qed.

Lemma quiet_fold_m ts {A B} (l : list A) (acc : B) (f : B -> A -> M B) :
  (forall b x, In x l -> quiet ts (fun _ => True) (f b x)) ->
  quiet ts (fun _ => True) (fold_m l acc f).
Proof.
  revert acc. induction l as [|x l IH]; intros acc Hf; simpl.
  - apply quiet_ret. exact I.
  - apply quiet_bind with (P := fun _ => True); [apply Hf; left; reflexivity|].
    intros a _. apply IH. intros b y Hy. apply Hf. right. exact Hy.
Qed.

Lemma quiet_for_each ts {A} (l : list A) (f : A -> M unit) :
  (forall x, In x l -> quiet ts (fun _ => True) (f x)) -> quiet ts (fun _ => True) (for_each l f).
Proof. intros Hf. apply quiet_fold_m. intros _ x Hx. apply Hf, Hx. Qed.

Lemma quiet_pure ts {A} (m : M A) :
  (forall s, exists a s', m s = Done a s' /\ eng s' = eng s) -> quiet ts (fun _ => True) m.
Proof.
  intros H s _. destruct (H s) as [a [s' [E Es]]]. exists a, s'.
  split; [exact E|]. split; [exact I|]. rewrite Es. apply read_only_refl.
Qed.

Lemma quiet_read ts st out :
  is_read st = true -> (forall e, tables e = ts -> exec_ok st e = Some (out, with_log e st)) ->
  quiet ts (fun o => o = None \/ o = Some out) (run st).
Proof.
  intros Hr Hx s Hs. unfold run, exec. destruct (fails (eng s) st).
  - exists None, s. split; [reflexivity|]. split; [left; reflexivity | apply read_only_refl].
  - rewrite (Hx _ Hs). exists (Some out), (set_eng (with_log (eng s) st) s).
    split; [reflexivity|]. split; [right; reflexivity|]. apply read_only_log. exact Hr.
Qed.

Lemma has_table_Some t ts p : find_table t ts = Some p -> has_table t ts = true.
Proof. intros E. unfold has_table. rewrite E. reflexivity. Qed.

Section Quiet.

Variable opts : Options.
Variable ts : list ptable.

Lemma tableExists_quiet t :
  quiet ts (fun r => r = R500 \/ r = mkResp 200 (Some (has_table t ts)) None) (tableExists t).
Proof.
  unfold tableExists.
  apply quiet_bind with (P := fun o => o = None \/ o = Some (OFound (has_table t ts))).
  - apply quiet_read; [reflexivity|]. intros e He. simpl. rewrite He. reflexivity.
  - intros o [-> | ->]; apply quiet_ret; auto.
Qed.

Lemma pragma_quiet t p :
  find_table t ts = Some p ->
  quiet ts (fun o => o = None \/ o = Some (OCols (pt_cols p))) (run (SPragma t)).
Proof.
  intros Hp. apply quiet_read; [reflexivity|]. intros e He. simpl. rewrite He, Hp. reflexivity.
Qed.

Lemma fieldExists_quiet t f p :
  find_table t ts = Some p ->
  quiet ts (fun r => r = R500 \/ r = mkResp 200 (Some (memb f (col_names (pt_cols p)))) None)
    (fieldExists t f).
Proof.
  intros Hp. unfold fieldExists.
  apply quiet_bind with (P := fun o => o = None \/ o = Some (OCols (pt_cols p))).
  - exact (pragma_quiet t p Hp).
  - intros o [-> | ->]; apply quiet_ret; auto.
Qed.

Lemma renameField_quiet t a b p :
  find_table t ts = Some p -> In b (col_names (pt_cols p)) ->
  quiet ts (fun _ => True) (renameField t a b).
Proof.
  intros Hp Hb. unfold renameField.
  eapply quiet_bind; [exact (fieldExists_quiet t a p Hp)|].
  intros r1 [-> | ->]; [apply quiet_ret; exact I|].
  destruct (memb a (col_names (pt_cols p))); simpl; [|apply quiet_ret; exact I].
  eapply quiet_bind; [exact (fieldExists_quiet t b p Hp)|].
  apply memb_In in Hb. intros r2 [-> | ->]; simpl; [apply quiet_ret; exact I|].
  rewrite Hb. apply quiet_ret. exact I.
Qed.

Lemma addFields_quiet t fields du p :
  find_table t ts = Some p ->
  (forall f, In f fields -> In (name f) (col_names (pt_cols p))) ->
  (du = true -> forall c, In c (col_names (pt_cols p)) -> In c (map name fields)) ->
  quiet ts (fun _ => True) (addFields t fields du).
Proof.
  intros Hp Hin Hdu. unfold addFields.
  apply quiet_bind with (P := fun _ => True).
  { apply quiet_fold_m. intros acc f Hf. destruct (old f) as [o|]; [|apply quiet_ret; exact I].
    apply quiet_bind with (P := fun _ => True).
    - exact (renameField_quiet t o (name f) p Hp (Hin f Hf)).
    - intros; apply quiet_ret; exact I. }
  intros acc _. eapply quiet_bind; [exact (pragma_quiet t p Hp)|].
  intros o [-> | ->]; [apply quiet_ret; exact I|]. cbv beta iota zeta.
  apply quiet_bind with (P := fun _ => True).
  { apply quiet_fold_m. intros b f Hf. exfalso. apply filter_In in Hf as [Hf Hn].
    apply negb_true_iff, memb_false in Hn. exact (Hn (Hin f Hf)). }
  intros acc' _. apply quiet_bind with (P := fun _ => True).
  { destruct du; [|apply quiet_ret; exact I].
    apply quiet_fold_m. intros b c Hc. exfalso. apply filter_In in Hc as [Hc Hn].
    apply negb_true_iff, memb_false in Hn. exact (Hn (Hdu eq_refl c Hc)). }
  intros; apply quiet_ret; exact I.
Qed.

Lemma createTable_quiet t fields p :
  find_table t ts = Some p ->
  (forall f, In f fields -> In (name f) (col_names (pt_cols p))) ->
  (delete_unused opts = true -> forall c, In c (col_names (pt_cols p)) -> In c (map name fields)) ->
  quiet ts (fun _ => True) (createTable opts t fields).
Proof.
  intros Hp Hin Hdu. unfold createTable.
  eapply quiet_bind; [exact (tableExists_quiet t)|].
  intros r [-> | ->]; [apply quiet_ret; exact I|].
  rewrite (has_table_Some _ _ _ Hp). simpl. exact (addFields_quiet t fields _ p Hp Hin Hdu).
Qed.

Lemma reorderFields_quiet t fields p :
  find_table t ts = Some p -> every_match fields (pt_cols p) = Some true ->
  quiet ts (fun _ => True) (reorderFields opts t fields).
Proof.
  intros Hp Hm. unfold reorderFields.
  eapply quiet_bind; [exact (pragma_quiet t p Hp)|].
  intros o [-> | ->]; [apply quiet_ret; exact I|]. rewrite Hm. apply quiet_ret. exact I.
Qed.

Lemma migrate_table_quiet tf p :
  find_table (fst tf) ts = Some p ->
  conforms (delete_unused opts) (reorder opts) (snd tf) (pt_cols p) ->
  quiet ts (fun _ => True) (migrate_table opts tf).
Proof.
  intros Hp [Hin [Hdu Hro]]. unfold migrate_table.
  apply quiet_bind with (P := fun _ => True); [exact (createTable_quiet _ _ p Hp Hin Hdu)|].
  intros _ _. destruct (reorder opts); [|apply quiet_ret; exact I].
  apply quiet_bind with (P := fun _ => True).
  - exact (reorderFields_quiet _ _ p Hp (Hro eq_refl)).
  - intros; apply quiet_ret; exact I.
Qed.

Lemma getTables_quiet :
  quiet ts (fun g => snd g = [] \/ snd g = map pt_name ts) getTables.
Proof.
  unfold getTables.
  apply quiet_bind with (P := fun o => o = None \/ o = Some (ONames (map pt_name ts))).
  - apply quiet_read; [reflexivity|]. intros e He. simpl. rewrite He. reflexivity.
  - intros o [-> | ->]; apply quiet_ret; simpl; auto.
Qed.

Lemma prune_table_quiet t :
  (delete_unused opts = true -> declared opts t = true) ->
  quiet ts (fun _ => True) (prune_table opts t).
Proof.
  intros H. unfold prune_table.
  destruct (delete_unused opts); simpl; [|apply quiet_ret; exact I].
  rewrite (H eq_refl). simpl. apply quiet_ret. exact I.
Qed.

Lemma open_quiet : migrated opts ts -> quiet ts (fun _ => True) (open opts).
Proof.
  intros [_ [Hsch Hdecl]]. unfold open.
  apply quiet_bind with (P := fun _ => True).
  { apply quiet_pure. intros s. unfold mkdir_quiet.
    destruct (fs_mkdir (dirname (filename opts)) (fs s)); eexists _, _; split; reflexivity. }
  intros _ _. apply quiet_bind with (P := fun _ => True).
  { apply quiet_pure. intros s. unfold open_handle.
    destruct (io_fails (fs s) (IOOpenDb (filename opts)));
      [|destruct (file_get (filename opts) (files (fs s)))]; eexists _, _; split; reflexivity. }
  intros h _. destruct h; simpl; [|apply quiet_ret; exact I].
  apply quiet_bind with (P := fun _ => True).
  { apply quiet_for_each. intros [t fields] Htf.
    destruct (Hsch t fields Htf) as [p [Hp Hc]]. exact (migrate_table_quiet (t, fields) p Hp Hc). }
  intros _ _. eapply quiet_bind; [exact getTables_quiet|].
  intros g Hg. apply quiet_bind with (P := fun _ => True).
  { apply quiet_for_each. intros t Ht. apply prune_table_quiet. intros Hdu.
    destruct Hg as [Hg | Hg]; rewrite Hg in Ht; [destruct Ht|].
    apply in_map_iff in Ht as [q [<- Hq]]. exact (Hdecl Hdu q Hq). }
  intros _ _. apply quiet_bind with (P := fun _ => True).
  { apply quiet_pure. intros s. exists tt, (mark_ready opts s). split; reflexivity. }
  intros; apply quiet_ret; exact I.
Qed.

End Quiet.

(** *** What each migration step may touch *)

Lemma stable_frame_bind T {A B} (m : M A) (k : A -> M B) :
  Stable (frame T) m -> (forall a, Stable (frame T) (k a)) -> Stable (frame T) (bind m k).
Proof. exact (stable_bind (frame T) (frame_trans T) m k). Qed.

Lemma stable_frame_ret T {A} (a : A) : Stable (frame T) (ret a).
Proof. exact (stable_ret (frame T) (frame_refl T) a). Qed.

Lemma stable_frame_mono (T T' : string -> Prop) {A} (m : M A) :
  Stable (frame T) m -> (forall x, T x -> T' x) -> Stable (frame T') m.
Proof. intros H HT s a s' E. exact (frame_mono _ _ _ _ HT (H _ _ _ E)). Qed.

Lemma stable_frame_run T st :
  (forall x, In x (affected st) -> T x) -> Stable (frame T) (run st).
Proof.
  intros HT. apply (stable_run (frame T) (frame_refl T)). intros e o e' E.
  exact (frame_mono _ _ _ _ HT (exec_frame _ _ _ _ E)).
Qed.

Lemma fresh_frame T : Stable (frame T) fresh.
Proof.
  apply (stable_pure (frame T) (frame_refl T)). intros s a s' E. inversion E. reflexivity.
Qed.

Create HintDb frames.
#[local] Hint Resolve fresh_frame : frames.

Ltac fstab :=
  repeat match goal with
  | |- Stable (frame _) (bind _ _) => apply stable_frame_bind; [|intros ?]
  | |- Stable (frame _) (ret _) => apply stable_frame_ret
  | |- Stable (frame _) hang => apply stable_hang
  | |- Stable (frame _) (run _) =>
      apply stable_frame_run; let x := fresh "x" in let Hx := fresh "Hx" in
      intros x Hx; simpl in Hx |- *; intuition (subst; eauto)
  | |- Stable (frame _) (fold_m _ _ _) =>
      apply (stable_fold_m _ (frame_refl _) (frame_trans _)); intros ? ? ?
  | |- Stable (frame _) (for_each _ _) =>
      apply (stable_for_each _ (frame_refl _) (frame_trans _)); intros ? ?
  | |- Stable (frame _) (if ?b then _ else _) => destruct b
  | |- Stable (frame _) (match ?x with _ => _ end) => destruct x
  | |- Stable (frame _) _ =>
      solve [eapply stable_frame_mono; [eauto with frames | simpl; intros ? ?; intuition (subst; eauto)]]
  end.

Lemma tableExists_frame t : Stable (frame (fun _ => False)) (tableExists t).
Proof. unfold tableExists. fstab. Qed.
#[local] Hint Resolve tableExists_frame : frames.

Lemma fieldExists_frame t f : Stable (frame (fun _ => False)) (fieldExists t f).
Proof. unfold fieldExists. fstab. Qed.
#[local] Hint Resolve fieldExists_frame : frames.

Lemma getTables_frame : Stable (frame (fun _ => False)) getTables.
Proof. unfold getTables. fstab. Qed.
#[local] Hint Resolve getTables_frame : frames.

Lemma renameField_frame t a b : Stable (frame (fun x => x = t)) (renameField t a b).
Proof. unfold renameField. fstab. Qed.
#[local] Hint Resolve renameField_frame : frames.

Lemma addField_frame t f ty dv : Stable (frame (fun x => x = t)) (addField t f ty dv).
Proof. unfold addField. fstab. Qed.
#[local] Hint Resolve addField_frame : frames.

Lemma deleteField_frame t f : Stable (frame (fun x => x = t)) (deleteField t f).
Proof. unfold deleteField. fstab. Qed.
#[local] Hint Resolve deleteField_frame : frames.

Lemma addFields_frame t fields du : Stable (frame (fun x => x = t)) (addFields t fields du).
Proof. unfold addFields. fstab. Qed.
#[local] Hint Resolve addFields_frame : frames.

Lemma createTable_frame opts t fields : Stable (frame (fun x => x = t)) (createTable opts t fields).
Proof. unfold createTable. fstab. Qed.
#[local] Hint Resolve createTable_frame : frames.

Lemma deleteTable_frame t : Stable (frame (fun x => x = t)) (deleteTable t).
Proof. unfold deleteTable. fstab. Qed.
#[local] Hint Resolve deleteTable_frame : frames.

Lemma renameTable_frame a b : Stable (frame (fun x => x = a \/ x = b)) (renameTable a b).
Proof. unfold renameTable. fstab. Qed.
#[local] Hint Resolve renameTable_frame : frames.

Lemma reorderFields_frame opts t fields :
  Stable (frame (fun x => x = t \/ exists n, x = temp_name n)) (reorderFields opts t fields).
Proof. unfold reorderFields. fstab. Qed.
#[local] Hint Resolve reorderFields_frame : frames.

Lemma migrate_table_frame opts tf :
  Stable (frame (fun x => x = fst tf \/ exists n, x = temp_name n)) (migrate_table opts tf).
Proof. unfold migrate_table. fstab. Qed.

Lemma prune_table_frame opts t :
  Stable (frame (fun x => declared opts x = false)) (prune_table opts t).
Proof.
  unfold prune_table. destruct (delete_unused opts && negb (declared opts t)) eqn:E; fstab.
  apply andb_true_iff in E as [_ E]. apply negb_true_iff in E.
  apply (stable_frame_mono _ _ _ (deleteTable_frame t)). intros x ->. exact E.
Qed.

(** *** Exact effects on an engine that accepts every statement *)

Lemma bind_Done {A B} (m : M A) (k : A -> M B) s b s'' :
  bind m k s = Done b s'' -> exists a s', m s = Done a s' /\ k a s' = Done b s''.
Proof.
  unfold bind. destruct (m s) as [a s'|s'|e s']; intros E; try discriminate. eauto.
Qed.

Lemma ret_Done {A} (a b : A) s s' : ret a s = Done b s' -> b = a /\ s' = s.
Proof. unfold ret. intros E. inversion E. auto. Qed.

Lemma run_ok st s :
  (forall x, fails (eng s) x = false) ->
  run st s = match exec_ok st (eng s) with
             | Some (o, e') => Done (Some o) (set_eng e' s)
             | None => Done None s
             end.
Proof.
  intros H. unfold run, exec. rewrite H. destruct (exec_ok st (eng s)) as [[o e']|]; reflexivity.
Qed.

Ltac chase H :=
  lazymatch type of H with
  | bind _ _ _ = Done _ _ =>
      let a := fresh "a" in let s1 := fresh "s" in let H1 := fresh "H" in
      apply bind_Done in H as [a [s1 [H1 H]]]; chase H1; chase H
  | ret _ _ = Done _ _ =>
      let E1 := fresh "E" in let E2 := fresh "E" in
      apply ret_Done in H as [E1 E2]; subst
  | _ => idtac
  end.

Lemma find_table_replace_same q p ts :
  find_table (pt_name q) ts = Some p -> find_table (pt_name q) (replace_table q ts) = Some q.
Proof. intros E. rewrite find_table_replace, String.eqb_refl, E. reflexivity. Qed.

Lemma tableExists_ok t s r s' :
  (forall x, fails (eng s) x = false) -> tableExists t s = Done r s' ->
  r = mkResp 200 (Some (has_table t (tables (eng s)))) None /\
  eng s' = with_log (eng s) (SMasterLookup t).
Proof.
  intros H0 E. unfold tableExists in E. chase E.
  rewrite run_ok in H by exact H0. simpl in H. inversion H; subst. auto.
Qed.

Lemma fieldExists_ok t f s r s' :
  (forall x, fails (eng s) x = false) -> fieldExists t f s = Done r s' ->
  r = mkResp 200 (Some (memb f (col_names (match find_table t (tables (eng s)) with
                                           | Some p => pt_cols p | None => [] end)))) None /\
  eng s' = with_log (eng s) (SPragma t).
Proof.
  intros H0 E. unfold fieldExists in E. chase E.
  rewrite run_ok in H by exact H0. simpl in H. inversion H; subst. auto.
Qed.

Lemma deleteTable_ok t s r s' :
  (forall x, fails (eng s) x = false) -> deleteTable t s = Done r s' ->
  find_table t (tables (eng s')) = None /\ (has_table t (tables (eng s)) = true -> code r = 200%Z).
Proof.
  intros H0 E. unfold deleteTable in E. chase E.
  destruct (tableExists_ok _ _ _ _ H0 H) as [-> Es]. simpl in E.
  destruct (has_table t (tables (eng s))) eqn:Eh; simpl in E.
  - chase E. rewrite run_ok in H1 by (rewrite Es; exact H0). rewrite Es in H1. simpl in H1.
    rewrite Eh in H1. inversion H1; subst. simpl. split; [|reflexivity].
    rewrite find_table_drop, String.eqb_refl. reflexivity.
  - chase E. rewrite Es. simpl. split; [|discriminate].
    unfold has_table in Eh. destruct (find_table t (tables (eng s))); [discriminate | reflexivity].
Qed.

Lemma renameTable_ok a b s r s' :
  (forall x, fails (eng s) x = false) ->
  has_table a (tables (eng s)) = true -> has_table b (tables (eng s)) = false ->
  renameTable a b s = Done r s' ->
  code r = 200%Z /\ tables (eng s') = map (ren_table a b) (tables (eng s)).
Proof.
  intros H0 Ha Hb E. unfold renameTable in E. chase E.
  destruct (tableExists_ok _ _ _ _ H0 H) as [-> Es]. rewrite Ha in E. simpl in E. chase E.
  destruct (tableExists_ok _ _ _ _ (ltac:(rewrite Es; exact H0)) H1) as [-> Es'].
  rewrite Es in E, Es'. simpl in E, Es'. rewrite Hb in E. simpl in E. chase E.
  rewrite run_ok in H2 by (rewrite Es'; exact H0). rewrite Es' in H2. simpl in H2.
  rewrite Ha, Hb in H2. simpl in H2. inversion H2; subst. simpl. auto.
Qed.

Lemma NoDup_nodupb l : NoDup l -> nodupb l = true.
Proof.
  induction l as [|x l IH]; simpl; intros H; [reflexivity|].
  inversion H as [|? ? Hx Hl]; subst. rewrite IH by exact Hl.
  apply memb_false in Hx. rewrite Hx. reflexivity.
Qed.

Lemma createTable_absent opts t fields s r s' :
  (forall x, fails (eng s) x = false) -> find_table t (tables (eng s)) = None ->
  NoDup (map name fields) -> fields <> [] ->
  createTable opts t fields s = Done r s' ->
  code r = 200%Z /\
  tables (eng s') = tables (eng s) ++ [mkPTable t (map (fun f => (name f, type f)) fields) []].
Proof.
  intros H0 Ht Hnd Hne E. unfold createTable in E. chase E.
  destruct (tableExists_ok _ _ _ _ H0 H) as [-> Es].
  assert (Hh : has_table t (tables (eng s)) = false) by (unfold has_table; rewrite Ht; reflexivity).
  rewrite Hh in E. simpl in E. chase E.
  rewrite run_ok in H1 by (rewrite Es; exact H0). rewrite Es in H1. simpl in H1.
  rewrite Hh in H1.
  assert (Hn : nodupb (col_names (map (fun f => (name f, type f)) fields)) = true).
  { apply NoDup_nodupb. unfold col_names. rewrite map_map. exact Hnd. }
  rewrite Hn in H1. destruct fields as [|f fs]; [contradiction|]. simpl in H1.
  inversion H1; subst. simpl. auto.
Qed.

Lemma run_updateall_cols t c v s o s' p :
  (forall x, fails (eng s) x = false) -> find_table t (tables (eng s)) = Some p ->
  run (SUpdateAll t c v) s = Done o s' ->
  exists p', find_table t (tables (eng s')) = Some p' /\ pt_cols p' = pt_cols p /\
             fails (eng s') = fails (eng s).
Proof.
  intros H0 Hp E. rewrite run_ok in E by exact H0. simpl in E. rewrite Hp in E.
  destruct (index_of c (col_names (pt_cols p))); inversion E; subst; simpl.
  - exists (mkPTable t (pt_cols p) (map (set_nth n v) (pt_rows p))). split; [|auto].
    pose proof (find_table_name _ _ _ Hp) as Hn.
    apply (find_table_replace_same (mkPTable t (pt_cols p) _) p). simpl. exact Hp.
  - eauto.
Qed.

Lemma addField_ok t f ty dv s r s' p :
  (forall x, fails (eng s) x = false) -> find_table t (tables (eng s)) = Some p ->
  ~ In f (col_names (pt_cols p)) ->
  addField t f ty dv s = Done r s' ->
  exists p', find_table t (tables (eng s')) = Some p' /\ pt_cols p' = pt_cols p ++ [(f, ty)] /\
             fails (eng s') = fails (eng s).
Proof.
  intros H0 Hp Hf E. unfold addField in E. chase E.
  rewrite run_ok in H by exact H0. simpl in H. rewrite Hp in H.
  apply memb_false in Hf. rewrite Hf in H. inversion H; subst. clear H.
  set (q := mkPTable t (pt_cols p ++ [(f, ty)]) (map (fun r => r ++ [VNull]) (pt_rows p))) in *.
  assert (Hq : find_table t (replace_table q (tables (eng s))) = Some q)
    by exact (find_table_replace_same q p _ Hp).
  destruct dv as [[|v|v]|]; chase E; simpl; try (exists q; auto; fail);
    (eapply (run_updateall_cols _ _ _ _ _ _ q) in H; [|simpl; exact H0 | simpl; exact Hq]);
    destruct H as [p' [Hp' [Hc Hf']]]; exists p'; simpl in *; rewrite Hc; auto.
Qed.

Lemma deleteField_ok t c s r s' p i :
  (forall x, fails (eng s) x = false) -> find_table t (tables (eng s)) = Some p ->
  index_of c (col_names (pt_cols p)) = Some i -> length (pt_cols p) <> 1%nat ->
  deleteField t c s = Done r s' ->
  exists p', find_table t (tables (eng s')) = Some p' /\ pt_cols p' = remove_nth i (pt_cols p) /\
             fails (eng s') = fails (eng s).
Proof.
  intros H0 Hp Hi Hl E. unfold deleteField in E. chase E.
  rewrite run_ok in H by exact H0. simpl in H. rewrite Hp, Hi in H.
  apply Nat.eqb_neq in Hl. rewrite Hl in H. inversion H; subst. simpl.
  eexists. split; [apply (find_table_replace_same (mkPTable t _ _) p); exact Hp|]. auto.
Qed.

Lemma In_index_of c l : In c l -> exists i, index_of c l = Some i.
Proof.
  induction l as [|y l IH]; simpl; [intros []|]. intros H.
  destruct (String.eqb_spec c y); [eauto|].
  destruct H as [H|H]; [congruence|]. destruct (IH H) as [i Ei]. rewrite Ei. simpl. eauto.
Qed.

Lemma In_remove_nth_index c l i x :
  NoDup l -> index_of c l = Some i -> (In x (remove_nth i l) <-> In x l /\ x <> c).
Proof.
  revert i. induction l as [|y l IH]; simpl; intros i Hn Hi; [discriminate|].
  inversion Hn as [|? ? Hy Hl]; subst.
  destruct (String.eqb_spec c y) as [->|Hc].
  - inversion Hi; subst. simpl. split.
    + intros H. split; [right; exact H|]. intros ->. contradiction.
    + intros [[->|H] Hx]; [contradiction | exact H].
  - destruct (index_of c l) as [j|] eqn:Ej; inversion Hi; subst. simpl.
    rewrite (IH j Hl eq_refl). split.
    + intros [->|[H Hx]]; [split; [left; reflexivity | congruence] | split; [right; exact H | exact Hx]].
    + intros [[->|H] Hx]; [left; reflexivity | right; split; assumption].
Qed.

Lemma length_two {A} (a b : A) l : In a l -> In b l -> a <> b -> length l <> 1%nat.
Proof.
  destruct l as [|x [|y l]]; simpl; try lia.
  intros [->|[]] [->|[]] H. contradiction.
Qed.

Lemma add_loop t L acc s r s' p :
  (forall x, fails (eng s) x = false) -> find_table t (tables (eng s)) = Some p ->
  NoDup (map name L) -> (forall f, In f L -> ~ In (name f) (col_names (pt_cols p))) ->
  fold_m L acc (fun acc f =>
                  r <- addField t (name f) (type f) (default_value f) ;;
                  ret (if (code r =? 200)%Z then acc else first acc r)) s = Done r s' ->
  exists p', find_table t (tables (eng s')) = Some p' /\
             pt_cols p' = pt_cols p ++ map (fun f => (name f, type f)) L /\
             fails (eng s') = fails (eng s).
Proof.
  revert acc s p. induction L as [|f L IH]; intros acc s p H0 Hp Hnd Hin E; simpl in E.
  - chase E. exists p. rewrite app_nil_r. auto.
  - apply bind_Done in E as [a [s1 [E1 E]]]. apply bind_Done in E1 as [r1 [s2 [E2 E3]]].
    apply ret_Done in E3 as [-> ->].
    destruct (addField_ok _ _ _ _ _ _ _ _ H0 Hp (Hin f (or_introl eq_refl)) E2) as [p1 [Hp1 [Hc1 Hf1]]].
    inversion Hnd as [|? ? Hf Hl]; subst.
    assert (Hin' : forall g, In g L -> ~ In (name g) (col_names (pt_cols p1))).
    { intros g Hg. rewrite Hc1. unfold col_names. rewrite map_app. simpl. intros Hx.
      apply in_app_or in Hx as [Hx|[Hx|[]]].
      - exact (Hin g (or_intror Hg) Hx).
      - apply Hf. rewrite Hx. apply in_map. exact Hg. }
    destruct (IH _ _ p1 ltac:(rewrite Hf1; exact H0) Hp1 Hl Hin' E) as [p' [Hp' [Hc' Hf']]].
    exists p'. split; [exact Hp'|]. split; [rewrite Hc', Hc1, <- app_assoc; reflexivity|].
    congruence.
Qed.

Lemma drop_loop t fields U acc s r s' p :
  (forall x, fails (eng s) x = false) -> find_table t (tables (eng s)) = Some p ->
  wf_cols (pt_cols p) -> NoDup U ->
  (forall c, In c U -> In c (col_names (pt_cols p))) ->
  (forall c, In c U -> ~ In c (map name fields)) ->
  (forall f, In f fields -> In (name f) (col_names (pt_cols p))) -> fields <> [] ->
  fold_m U acc (fun acc c =>
                  r <- deleteField t c ;;
                  ret (if (code r =? 200)%Z then acc else first acc r)) s = Done r s' ->
  exists p', find_table t (tables (eng s')) = Some p' /\
             (forall x, In x (col_names (pt_cols p')) <-> In x (col_names (pt_cols p)) /\ ~ In x U) /\
             wf_cols (pt_cols p') /\ fails (eng s') = fails (eng s).
Proof.
  revert acc s p. induction U as [|c U IH]; intros acc s p H0 Hp Hw Hnd HU Hnf Hf Hne E; simpl in E.
  - chase E. exists p. split; [exact Hp|]. split; [|auto]. intros x. simpl. tauto.
  - apply bind_Done in E as [a [s1 [E1 E]]]. apply bind_Done in E1 as [r1 [s2 [E2 E3]]].
    apply ret_Done in E3 as [-> ->].
    destruct (In_index_of c _ (HU c (or_introl eq_refl))) as [i Hi].
    assert (Hl : length (pt_cols p) <> 1%nat).
    { destruct fields as [|f0 fs]; [contradiction|].
      assert (Hlen : length (col_names (pt_cols p)) <> 1%nat).
      { apply (length_two (name f0) c); [apply Hf; left; reflexivity | apply HU; left; reflexivity|].
        intros E'. apply (Hnf c (or_introl eq_refl)). rewrite <- E'. left. reflexivity. }
      unfold col_names in Hlen. rewrite length_map in Hlen. exact Hlen. }
    destruct (deleteField_ok _ _ _ _ _ _ _ H0 Hp Hi Hl E2) as [p1 [Hp1 [Hc1 Hf1]]].
    destruct Hw as [Hwne Hwnd].
    assert (Hx1 : forall x, In x (col_names (pt_cols p1)) <-> In x (col_names (pt_cols p)) /\ x <> c).
    { intros x. rewrite Hc1. unfold col_names. rewrite remove_nth_map.
      exact (In_remove_nth_index c _ i x Hwnd Hi). }
    inversion Hnd as [|? ? Hc Hl']; subst.
    assert (Hw1 : wf_cols (pt_cols p1)).
    { rewrite Hc1. exact (wf_cols_drop _ c i (conj Hwne Hwnd) Hi Hl). }
    assert (HU1 : forall x, In x U -> In x (col_names (pt_cols p1))).
    { intros x Hx. apply Hx1. split; [apply HU; right; exact Hx|]. intros ->. contradiction. }
    assert (Hnf1 : forall x, In x U -> ~ In x (map name fields)).
    { intros x Hx. apply Hnf. right. exact Hx. }
    assert (Hf1' : forall f, In f fields -> In (name f) (col_names (pt_cols p1))).
    { intros f Hfi. apply Hx1. split; [apply Hf, Hfi|]. intros E'.
      apply (Hnf c (or_introl eq_refl)). rewrite <- E'. apply in_map. exact Hfi. }
    destruct (IH _ _ p1 ltac:(rewrite Hf1; exact H0) Hp1 Hw1 Hl' HU1 Hnf1 Hf1' Hne E)
      as [p' [Hp' [Hx' [Hw' Hf']]]].
    exists p'. split; [exact Hp'|]. split; [|split; [exact Hw' | congruence]].
    intros x. rewrite Hx', Hx1. simpl. intuition.
Qed.

Lemma exec_keeps t st e o e' :
  match st with SDropTable _ | SRenameTable _ _ => False | _ => True end ->
  exec st e = Some (o, e') -> has_table t (tables e) = true -> has_table t (tables e') = true.
Proof.
  unfold exec. destruct (fails e st); [discriminate|].
  intros Hst H Ht. apply has_table_find in Ht as [p0 Hp0]. apply has_table_find.
  destruct st; simpl in H; try contradiction; split_exec H; simpl; eauto;
    try (rewrite find_table_app, Hp0; eauto; fail);
    rewrite find_table_replace, Hp0; destruct (String.eqb _ t); eauto.
Qed.

Lemma rename_loop_keeps t fields acc s r s' :
  fold_m fields acc (fun acc f =>
                       match old f with
                       | None => ret acc
                       | Some o => r <- renameField t o (name f) ;;
                                   ret (if (code r =? 500)%Z then first acc r else acc)
                       end) s = Done r s' ->
  has_table t (tables (eng s)) = true -> has_table t (tables (eng s')) = true.
Proof.
  set (K := fun e e' : engine => has_table t (tables e) = true -> has_table t (tables e') = true).
  assert (Kr : forall e, K e e) by (intros e H; exact H).
  assert (Kt : forall e1 e2 e3, K e1 e2 -> K e2 e3 -> K e1 e3) by (intros e1 e2 e3 H1 H2 H; auto).
  assert (Krun : forall st, match st with SDropTable _ | SRenameTable _ _ => False | _ => True end ->
                 Stable K (run st)).
  { intros st Hst. apply (stable_run K Kr). intros e o e' E. exact (exec_keeps t st e o e' Hst E). }
  intros E. revert E. apply (stable_fold_m K Kr Kt). intros b f _.
  destruct (old f) as [o|]; [|apply (stable_ret K Kr)].
  apply (stable_bind K Kt); [|intros; apply (stable_ret K Kr)].
  unfold renameField, fieldExists.
  repeat match goal with
  | |- Stable _ (bind _ _) => apply (stable_bind K Kt); [|intros ?]
  | |- Stable _ (ret _) => apply (stable_ret K Kr)
  | |- Stable _ (run _) => apply Krun; exact I
  | |- Stable _ (if ?c then _ else _) => destruct c
  end.
Qed.

Lemma NoDup_map_filter {A B} (g : A -> B) (h : A -> bool) l :
  NoDup (map g l) -> NoDup (map g (filter h l)).
Proof.
  induction l as [|x l IH]; simpl; intros Hn; [constructor|].
  inversion Hn as [|? ? Hx Hl]; subst. destruct (h x); simpl; [|auto].
  constructor; [|auto]. intros H. apply Hx. apply in_map_iff in H as [y [Ey Hy]].
  apply filter_In in Hy. rewrite <- Ey. apply in_map. apply Hy.
Qed.

Lemma col_names_app_map cs L :
  col_names (cs ++ map (fun f => (name f, type f)) L) = col_names cs ++ map name L.
Proof. unfold col_names. rewrite map_app, map_map. reflexivity. Qed.

Lemma frame_healthy T e e' :
  frame T e e' -> (forall x, fails e x = false) -> forall x, fails e' x = false.
Proof. intros [F _] H x. rewrite F. apply H. Qed.

Ltac frame_of E T :=
  match type of E with
  | ?m ?s = Done _ _ =>
      let Hs := fresh "Hs" in
      assert (Hs : Stable (frame T) m) by fstab;
      let F := fresh "F" in pose proof (Hs _ _ _ E) as F; clear Hs
  end.

Lemma addFields_ok t fields du s r s' :
  (forall x, fails (eng s) x = false) -> wf_tables (tables (eng s)) ->
  has_table t (tables (eng s)) = true -> NoDup (map name fields) -> fields <> [] ->
  addFields t fields du s = Done r s' ->
  exists p', find_table t (tables (eng s')) = Some p' /\
    (forall f, In f fields -> In (name f) (col_names (pt_cols p'))) /\
    (du = true -> forall c, In c (col_names (pt_cols p')) -> In c (map name fields)).
Proof.
  intros H0 Hw Ht Hnd Hne E. unfold addFields in E.
  apply bind_Done in E as [acc [s1 [E1 E]]].
  pose proof (rename_loop_keeps _ _ _ _ _ _ E1 Ht) as Ht1.
  frame_of E1 (fun x => x = t). destruct F as [F1 [W1 _]].
  apply has_table_find in Ht1 as [p1 Hp1].
  assert (H1 : forall x, fails (eng s1) x = false) by (intros x; rewrite F1; apply H0).
  apply bind_Done in E as [o [s2 [E2 E]]].
  rewrite run_ok in E2 by exact H1. simpl in E2. rewrite Hp1 in E2. inversion E2; subst. clear E2.
  cbv beta iota zeta in E.
  apply bind_Done in E as [acc2 [s3 [E3 E]]].
  set (missing := filter (fun f => negb (memb (name f) (col_names (pt_cols p1)))) fields) in *.
  assert (Hmiss : forall f, In f missing -> ~ In (name f) (col_names (pt_cols p1))).
  { intros f Hf. apply filter_In in Hf as [_ Hf]. apply negb_true_iff, memb_false in Hf. exact Hf. }
  destruct (add_loop t missing _ (set_eng (with_log (eng s1) (SPragma t)) s1) _ _ p1 H1 Hp1
              (NoDup_map_filter _ _ _ Hnd) Hmiss E3) as [p2 [Hp2 [Hc2 Hf2]]].
  frame_of E3 (fun x => x = t). destruct F as [_ [W3 _]].
  assert (Hw3 : wf_tables (tables (eng s3))) by (apply W3; exact (W1 Hw)).
  assert (Hfields2 : forall f, In f fields -> In (name f) (col_names (pt_cols p2))).
  { intros f Hf. rewrite Hc2, col_names_app_map. apply in_or_app.
    destruct (memb (name f) (col_names (pt_cols p1))) eqn:Em.
    - left. apply memb_In. exact Em.
    - right. apply in_map. apply filter_In. rewrite Em. auto. }
  assert (Hnames2 : forall c, In c (col_names (pt_cols p2)) ->
                    In c (col_names (pt_cols p1)) \/ In c (map name fields)).
  { intros c Hc. rewrite Hc2, col_names_app_map in Hc. apply in_app_or in Hc as [Hc|Hc]; [auto|].
    right. apply in_map_iff in Hc as [f [<- Hf]]. apply in_map. apply filter_In in Hf. apply Hf. }
  destruct du.
  - apply bind_Done in E as [acc3 [s4 [E4 E]]]. apply ret_Done in E as [_ ->].
    set (unused := filter (fun c => negb (memb c (map name fields))) (col_names (pt_cols p1))) in *.
    assert (Hwc1 : wf_cols (pt_cols p1)) by exact (wf_tables_cols _ _ _ (W1 Hw) Hp1).
    assert (HU : forall c, In c unused -> ~ In c (map name fields)).
    { intros c Hc. apply filter_In in Hc as [_ Hc]. apply negb_true_iff, memb_false in Hc. exact Hc. }
    assert (HU2 : forall c, In c unused -> In c (col_names (pt_cols p2))).
    { intros c Hc. rewrite Hc2, col_names_app_map. apply in_or_app. left.
      apply filter_In in Hc. apply Hc. }
    destruct (drop_loop t fields unused _ s3 _ _ p2 ltac:(rewrite Hf2; exact H1) Hp2
                (wf_tables_cols _ _ _ Hw3 Hp2) (NoDup_filter _ (proj2 Hwc1)) HU2 HU
                Hfields2 Hne E4) as [p3 [Hp3 [Hx3 _]]].
    exists p3. split; [exact Hp3|]. split.
    + intros f Hf. apply Hx3. split; [apply Hfields2, Hf|]. intros Hu.
      apply (HU _ Hu). apply in_map. exact Hf.
    + intros _ c Hc. apply Hx3 in Hc as [Hc Hu].
      destruct (Hnames2 c Hc) as [Hc1|Hc1]; [|exact Hc1].
      destruct (memb c (map name fields)) eqn:Em; [apply memb_In; exact Em|].
      exfalso. apply Hu. apply filter_In. rewrite Em. auto.
  - apply ret_Done in E as [_ ->]. exists p2. split; [exact Hp2|]. split; [exact Hfields2|].
    discriminate.
Qed.

Lemma createTable_ok opts t fields s r s' :
  (forall x, fails (eng s) x = false) -> wf_tables (tables (eng s)) ->
  NoDup (map name fields) -> fields <> [] ->
  createTable opts t fields s = Done r s' ->
  exists p', find_table t (tables (eng s')) = Some p' /\
    (forall f, In f fields -> In (name f) (col_names (pt_cols p'))) /\
    (delete_unused opts = true -> forall c, In c (col_names (pt_cols p')) -> In c (map name fields)).
Proof.
  intros H0 Hw Hnd Hne E. destruct (has_table t (tables (eng s))) eqn:Eh.
  - unfold createTable in E. apply bind_Done in E as [r1 [s1 [E1 E]]].
    destruct (tableExists_ok _ _ _ _ H0 E1) as [-> Es1]. rewrite Eh in E. simpl in E.
    apply (addFields_ok t fields _ s1 r s'); try rewrite Es1; simpl; assumption.
  - assert (Hn : find_table t (tables (eng s)) = None).
    { unfold has_table in Eh. destruct (find_table t (tables (eng s))); [discriminate|reflexivity]. }
    destruct (createTable_absent _ _ _ _ _ _ H0 Hn Hnd Hne E) as [_ Ets].
    rewrite Ets, find_table_app, Hn. simpl. rewrite String.eqb_refl.
    eexists. split; [reflexivity|]. simpl.
    unfold col_names. rewrite map_map. simpl. split.
    + intros f Hf. apply in_map. exact Hf.
    + intros _ c Hc. exact Hc.
Qed.

Lemma splice_out_some n tf c tf' :
  splice_out n tf = (Some c, tf') -> fst c = n /\ Permutation tf (c :: tf').
Proof.
  revert tf'. induction tf as [|c0 tf IH]; simpl; intros tf' E; [discriminate|].
  destruct (String.eqb_spec (fst c0) n) as [Ec|Ec].
  - inversion E; subst. auto.
  - destruct (splice_out n tf) as [x rest] eqn:Es. inversion E; subst.
    destruct (IH rest eq_refl) as [Hc Hp]. split; [exact Hc|].
    apply perm_trans with (c0 :: c :: rest); [apply perm_skip; exact Hp | apply perm_swap].
Qed.

Lemma all_some_map_Some {A} (l : list A) : all_some (map Some l) = Some l.
Proof. induction l as [|x l IH]; simpl; [reflexivity|]. rewrite IH. reflexivity. Qed.

Lemma splice_ok fields tf cols :
  all_some (splice_order fields tf) = Some cols ->
  Permutation cols tf /\ every_match fields cols = Some true.
Proof.
  revert tf cols. induction fields as [|f fs IH]; intros tf cols H; simpl in H.
  - rewrite all_some_map_Some in H. inversion H; subst. split; [apply Permutation_refl | reflexivity].
  - destruct (splice_out (name f) tf) as [x tf'] eqn:Es. simpl in H.
    destruct x as [c|]; [|discriminate].
    destruct (all_some (splice_order fs tf')) as [cols'|] eqn:Ea; simpl in H; inversion H; subst.
    destruct (IH _ _ Ea) as [Hp Hm]. destruct (splice_out_some _ _ _ _ Es) as [Hc Hp'].
    split.
    + apply Permutation_sym. apply perm_trans with (c :: tf'); [exact Hp'|].
      apply perm_skip. apply Permutation_sym. exact Hp.
    + simpl. rewrite Hc, String.eqb_refl. exact Hm.
Qed.

Lemma map_col_of_phys cols :
  map (fun f => (name f, type f)) (map col_of_phys cols) = cols.
Proof.
  rewrite map_map. rewrite <- (map_id cols) at 2. apply map_ext. intros [n ty]. reflexivity.
Qed.

Lemma reorderFields_ok opts t fields s r s' p :
  (forall x, fails (eng s) x = false) -> wf_tables (tables (eng s)) ->
  find_table t (tables (eng s)) = Some p -> (forall n, t <> temp_name n) ->
  (forall f, In f fields -> In (name f) (col_names (pt_cols p))) ->
  (delete_unused opts = true -> forall c, In c (col_names (pt_cols p)) -> In c (map name fields)) ->
  reorderFields opts t fields s = Done r s' ->
  exists p', find_table t (tables (eng s')) = Some p' /\
             conforms (delete_unused opts) true fields (pt_cols p').
Proof.
  intros H0 Hw Hp Htmp Hin Hdu E. unfold reorderFields in E.
  apply bind_Done in E as [o [s1 [E1 E]]].
  rewrite run_ok in E1 by exact H0. simpl in E1. rewrite Hp in E1. inversion E1; subst. clear E1.
  cbv beta iota zeta in E.
  destruct (every_match fields (pt_cols p)) as [[|]|] eqn:Em.
  - apply ret_Done in E as [_ ->]. exists p. simpl. split; [exact Hp|].
    split; [exact Hin|]. split; [exact Hdu | intros _; exact Em].
  - (* rebuild through a temporary table *)
    apply bind_Done in E as [n [s2 [E2 E]]]. unfold fresh in E2. injection E2 as En Es2. subst s2.
    set (tmp := temp_name n) in *.
    set (s2 := mkState _ _ _ _ _ _ _) in E.
    assert (Hs2 : eng s2 = with_log (eng s) (SPragma t)) by reflexivity.
    assert (H2 : forall x, fails (eng s2) x = false) by (rewrite Hs2; exact H0).
    assert (Hw2 : wf_tables (tables (eng s2))) by (rewrite Hs2; exact Hw).
    assert (Hp2 : find_table t (tables (eng s2)) = Some p) by (rewrite Hs2; exact Hp).
    assert (Ht : t <> tmp) by apply Htmp.
    clearbody s2 tmp.
    apply bind_Done in E as [r3 [s3 [E3 E]]].
    destruct (deleteTable_ok _ _ _ _ H2 E3) as [Htmp3 _].
    frame_of E3 (fun x => x = tmp). destruct F as [F3 [W3 X3]].
    assert (H3 : forall x, fails (eng s3) x = false) by (intros x; rewrite F3; apply H2).
    assert (Hw3 : wf_tables (tables (eng s3))) by exact (W3 Hw2).
    assert (Hp3 : find_table t (tables (eng s3)) = Some p) by (rewrite X3; [exact Hp2 | exact Ht]).
    destruct (all_some (splice_order fields (pt_cols p))) as [cols|] eqn:Ea.
    2:{ apply bind_Done in E as [r4 [s4 [E4 E]]].
        destruct (tableExists_ok _ _ _ _ H3 E4) as [-> _]. simpl in E. discriminate. }
    destruct (splice_ok _ _ _ Ea) as [Hperm Hm].
    assert (Hwc : wf_cols (pt_cols p)) by exact (wf_tables_cols _ _ _ Hw Hp).
    assert (Hnames : Permutation (col_names cols) (col_names (pt_cols p)))
      by (apply Permutation_map; exact Hperm).
    apply bind_Done in E as [r4 [s4 [E4 E]]].
    destruct (createTable_absent opts tmp (map col_of_phys cols) s3 r4 s4 H3 Htmp3) as [Hc4 Ets4].
    { rewrite map_map. apply (Permutation_NoDup (Permutation_sym Hnames)). apply Hwc. }
    { intros Hnil. apply map_eq_nil in Hnil. subst. apply Permutation_nil in Hperm.
      apply Hwc. rewrite Hperm. reflexivity. }
    { exact E4. }
    rewrite map_col_of_phys in Ets4. rewrite Hc4 in E. simpl in E.
    frame_of E4 (fun x => x = tmp). destruct F as [F4 _].
    assert (H4 : forall x, fails (eng s4) x = false) by (intros x; rewrite F4; apply H3).
    assert (Htmp4 : find_table tmp (tables (eng s4)) = Some (mkPTable tmp cols [])).
    { rewrite Ets4, find_table_app, Htmp3. simpl. rewrite String.eqb_refl. reflexivity. }
    assert (Hp4 : find_table t (tables (eng s4)) = Some p).
    { rewrite Ets4, find_table_app, Hp3. reflexivity. }
    apply bind_Done in E as [o5 [s5 [E5 E]]].
    rewrite run_ok in E5 by exact H4. simpl in E5. rewrite Htmp4, Hp4 in E5. simpl in E5.
    assert (Hall : forallb (fun c => memb c (col_names (pt_cols p))) (col_names cols) = true).
    { apply forallb_forall. intros c Hc. apply memb_In.
      exact (Permutation_in _ Hnames Hc). }
    rewrite Hall in E5. simpl in E5.
    assert (Hlen : length (col_names cols) = length cols) by apply length_map.
    rewrite Hlen, Nat.eqb_refl in E5.
    simpl in E5. inversion E5; subst. clear E5. simpl in E.
    set (q := mkPTable tmp cols _) in *.
    set (s5 := set_eng _ s4) in E.
    assert (Hs5 : tables (eng s5) = replace_table q (tables (eng s4))) by reflexivity.
    assert (H5 : forall x, fails (eng s5) x = false) by exact H4.
    assert (Hq5 : find_table tmp (tables (eng s5)) = Some q)
      by (rewrite Hs5; exact (find_table_replace_same q _ _ Htmp4)).
    assert (Hp5 : find_table t (tables (eng s5)) = Some p).
    { rewrite Hs5, find_table_replace. simpl.
      destruct (String.eqb_spec tmp t); [congruence | exact Hp4]. }
    clearbody s5.
    apply bind_Done in E as [r6 [s6 [E6 E]]].
    destruct (deleteTable_ok _ _ _ _ H5 E6) as [Ht6 Hc6].
    rewrite (Hc6 (has_table_Some _ _ _ Hp5)) in E. simpl in E.
    frame_of E6 (fun x => x = t). destruct F as [F6 [_ X6]].
    assert (H6 : forall x, fails (eng s6) x = false) by (intros x; rewrite F6; apply H5).
    assert (Hq6 : find_table tmp (tables (eng s6)) = Some q)
      by (rewrite X6; [exact Hq5 | intros E'; apply Ht; symmetry; exact E']).
    apply bind_Done in E as [r7 [s7 [E7 E]]].
    destruct (renameTable_ok tmp t s6 r7 s7 H6 (has_table_Some _ _ _ Hq6)) as [Hc7 Ets7].
    { unfold has_table. rewrite Ht6. reflexivity. }
    { exact E7. }
    rewrite Hc7 in E. simpl in E. apply ret_Done in E as [_ ->].
    exists (mkPTable t cols (pt_rows q)). split.
    { rewrite Ets7, find_table_ren_new, Hq6; [reflexivity|].
      apply find_table_None. exact Ht6. }
    simpl. split; [|split].
    + intros f Hf. apply (Permutation_in _ (Permutation_sym Hnames)). apply Hin, Hf.
    + intros Hd c Hc. apply (Hdu Hd). exact (Permutation_in _ Hnames Hc).
    + intros _. exact Hm.
  - unfold hang in E. discriminate.
Qed.

Lemma migrate_table_ok opts t fields s r s' :
  (forall x, fails (eng s) x = false) -> wf_tables (tables (eng s)) ->
  fields <> [] -> NoDup (map name fields) -> (forall n, t <> temp_name n) ->
  migrate_table opts (t, fields) s = Done r s' ->
  exists p, find_table t (tables (eng s')) = Some p /\
            conforms (delete_unused opts) (reorder opts) fields (pt_cols p).
Proof.
  intros H0 Hw Hne Hnd Htmp E. unfold migrate_table in E. cbn [fst snd] in E.
  apply bind_Done in E as [r1 [s1 [E1 E]]].
  destruct (createTable_ok _ _ _ _ _ _ H0 Hw Hnd Hne E1) as [p1 [Hp1 [Hin1 Hdu1]]].
  frame_of E1 (fun x => x = t). destruct F as [F1 [W1 _]].
  destruct (reorder opts) eqn:Ero.
  - apply bind_Done in E as [r2 [s2 [E2 E]]]. apply ret_Done in E as [_ ->].
    destruct (reorderFields_ok opts t fields s1 r2 s2 p1) as [p' [Hp' Hc']];
      try assumption; try (intros x; rewrite F1; apply H0); try (apply W1; exact Hw).
    exists p'. split; assumption.
  - apply ret_Done in E as [_ ->]. exists p1. split; [exact Hp1|].
    split; [exact Hin1|]. split; [exact Hdu1 | discriminate].
Qed.

Lemma schema_loop opts l s r s' :
  (forall x, fails (eng s) x = false) -> wf_tables (tables (eng s)) ->
  NoDup (map fst l) ->
  Forall (fun tf => snd tf <> [] /\ NoDup (map name (snd tf)) /\
                    forall n, fst tf <> temp_name n) l ->
  for_each l (migrate_table opts) s = Done r s' ->
  forall t fields, In (t, fields) l ->
    exists p, find_table t (tables (eng s')) = Some p /\
              conforms (delete_unused opts) (reorder opts) fields (pt_cols p).
Proof.
  revert s. induction l as [|[t0 f0] l IH]; [intros s _ _ _ _ _ t fields []|].
  intros s H0 Hw Hnd Hok E. unfold for_each in E. simpl in E.
  apply bind_Done in E as [u [s1 [E1 E]]]. destruct u.
  change (for_each l (migrate_table opts) s1 = Done r s') in E.
  inversion Hnd as [|? ? Hn Hnd']; subst. inversion Hok as [|? ? [Hne [Hnd0 Htmp0]] Hok']; subst.
  simpl in Hne, Hnd0, Htmp0.
  pose proof (migrate_table_frame opts (t0, f0) _ _ _ E1) as [F1 [W1 _]].
  assert (H1 : forall x, fails (eng s1) x = false) by (intros x; rewrite F1; apply H0).
  assert (Hw1 : wf_tables (tables (eng s1))) by (apply W1; exact Hw).
  assert (Hst : Stable (frame (fun x => In x (map fst l) \/ exists n, x = temp_name n))
                       (for_each l (migrate_table opts))).
  { apply (stable_for_each _ (frame_refl _) (frame_trans _)). intros x Hx.
    apply (stable_frame_mono _ _ _ (migrate_table_frame opts x)).
    intros y [->|Hy]; [left; apply in_map; exact Hx | right; exact Hy]. }
  destruct (Hst _ _ _ E) as [_ [_ X]].
  intros t fields [Ht|Ht].
  - inversion Ht; subst.
    destruct (migrate_table_ok _ _ _ _ _ _ H0 Hw Hne Hnd0 Htmp0 E1) as [p [Hp Hc]].
    exists p. split; [|exact Hc]. rewrite X; [exact Hp|].
    intros [Hin|[n Hn']]; [exact (Hn Hin) | exact (Htmp0 n Hn')].
  - exact (IH s1 H1 Hw1 Hnd' Hok' E t fields Ht).
Qed.

Lemma find_table_In_NoDup q ts :
  NoDup (map pt_name ts) -> In q ts -> find_table (pt_name q) ts = Some q.
Proof.
  induction ts as [|q0 ts IH]; simpl; intros Hn Hq; [destruct Hq|].
  inversion Hn as [|? ? Hq0 Hn']; subst.
  destruct Hq as [->|Hq]; [rewrite String.eqb_refl; reflexivity|].
  destruct (String.eqb_spec (pt_name q0) (pt_name q)) as [E|E]; [|exact (IH Hn' Hq)].
  exfalso. apply Hq0. rewrite E. apply in_map. exact Hq.
Qed.

Lemma prune_loop opts N s r s' :
  delete_unused opts = true ->
  (forall x, fails (eng s) x = false) -> wf_tables (tables (eng s)) ->
  (forall q, In q (tables (eng s)) -> declared opts (pt_name q) = true \/ In (pt_name q) N) ->
  for_each N (prune_table opts) s = Done r s' ->
  forall q, In q (tables (eng s')) -> declared opts (pt_name q) = true.
Proof.
  intros Hdu. revert s. induction N as [|t N IH]; intros s H0 Hw Hinv E.
  - unfold for_each in E. simpl in E. apply ret_Done in E as [_ ->].
    intros q Hq. destruct (Hinv q Hq) as [Hd|[]]. exact Hd.
  - unfold for_each in E. simpl in E. apply bind_Done in E as [u [s1 [E1 E]]]. destruct u.
    change (for_each N (prune_table opts) s1 = Done r s') in E.
    pose proof (prune_table_frame opts t _ _ _ E1) as [F1 [W1 X1]].
    apply (IH s1); [intros x; rewrite F1; apply H0 | apply W1; exact Hw | | exact E].
    intros q Hq. unfold prune_table in E1. rewrite Hdu in E1. simpl in E1.
    destruct (declared opts t) eqn:Ed; simpl in E1.
    + apply ret_Done in E1 as [_ ->]. destruct (Hinv q Hq) as [Hd|[Hd|Hd]]; auto.
      left. rewrite <- Hd. exact Ed.
    + apply bind_Done in E1 as [r2 [s2 [E2 E1]]]. apply ret_Done in E1 as [_ ->].
      destruct (deleteTable_ok _ _ _ _ H0 E2) as [Ht2 _].
      assert (Hne : pt_name q <> t).
      { intros Eq. apply find_table_None in Ht2. apply Ht2. rewrite <- Eq. apply in_map. exact Hq. }
      assert (Hq' : In q (tables (eng s))).
      { pose proof (deleteTable_frame t _ _ _ E2) as [_ [_ X2]].
        apply (find_table_In (pt_name q)). rewrite <- X2 by exact Hne.
        apply find_table_In_NoDup; [apply (W1 Hw) | exact Hq]. }
      destruct (Hinv q Hq') as [Hd|[Hd|Hd]]; auto; congruence.
Qed.

Lemma getTables_ok s g s' :
  (forall x, fails (eng s) x = false) -> getTables s = Done g s' ->
  g = (R200, map pt_name (tables (eng s))) /\ eng s' = with_log (eng s) SMasterAll.
Proof.
  intros H0 E. unfold getTables in E. chase E.
  rewrite run_ok in H by exact H0. simpl in H. inversion H; subst. auto.
Qed.

Lemma declared_schema opts t fields : In (t, fields) (schema opts) -> declared opts t = true.
Proof.
  intros H. unfold declared. apply orb_true_iff. left. apply memb_In.
  change t with (fst (t, fields)). apply in_map. exact H.
Qed.

(** C8: migration is idempotent. On storage already migrated to the schema
    of [opts] (every declared table present with its declared columns, in
    declared order when [reorder] is set, and, when [delete_unused] is set,
    no undeclared table or column left), [open] settles, leaves every table
    as it was and issues only reads (sqlite_master lookups, PRAGMA
    table_info): no column is renamed, added or dropped, no table is rebuilt
    for reordering and no table is dropped. This holds whichever statements
    the engine fails. "Migrated" compares names as exact strings, as the
    JavaScript checks of [addFields], [reorderFields] and the
    [sqlite_master] lookup of [tableExists] do. *)
Theorem open_on_migrated_only_reads (opts : Options) (s : state) :
  migrated opts (tables (eng s)) ->
  exists r s', open opts s = Done r s' /\ read_only (eng s) (eng s').
Proof.
  intros H. destruct (open_quiet opts _ H s eq_refl) as [r [s' [E [_ R]]]].
  exists r, s'. split; [exact E | exact R].
Qed.

(** Witness: "items" stored exactly as declared, with [delete_unused] and
    [reorder] set. *)
Lemma open_on_migrated_only_reads_witness :
  migrated (items_opts true true) [items_row] /\
  exists r s', open (items_opts true true) (mk_state [items_row] healthy [] io_ok false) = Done r s' /\
               read_only (eng (mk_state [items_row] healthy [] io_ok false)) (eng s').
Proof.
  assert (Hm : migrated (items_opts true true) [items_row]).
  { split; [split|split].
    - apply nodupb_NoDup. reflexivity.
    - constructor; [|constructor]. split; [discriminate|]. apply nodupb_NoDup. reflexivity.
    - intros t fields [H|[]]. inversion H; subst. exists items_row. split; [reflexivity|].
      split; [|split].
      + intros f Hf. simpl in Hf. destruct Hf as [<-|[<-|[<-|[]]]]; simpl; tauto.
      + intros _ c Hc. simpl in Hc. destruct Hc as [<-|[<-|[<-|[]]]]; simpl; tauto.
      + intros _. reflexivity.
    - intros _ p [<-|[]]. reflexivity. }
  split; [exact Hm|].
  apply (open_on_migrated_only_reads (items_opts true true) (mk_state [items_row] healthy [] io_ok false)).
  exact Hm.
Defined.

End Idempotence.

(** ** Further properties of the models, the rows and the maintenance
    operations. *)

Module Extras.
Import Idempotence.

Lemma oget_oset k k' v o : oget k (oset k' v o) = if String.eqb k k' then v else oget k o.
Proof.
  induction o as [|[k'' v''] o IH]; simpl.
  - destruct (String.eqb k k'); reflexivity.
  - destruct (String.eqb_spec k' k'') as [E|Hne]; simpl.
    + subst k''. destruct (String.eqb k k'); reflexivity.
    + rewrite IH. destruct (String.eqb_spec k k'') as [->|]; [|reflexivity].
      destruct (String.eqb_spec k'' k') as [->|]; [contradiction|reflexivity].
Qed.

Lemma keys_oset k k' v o : In k (map fst (oset k' v o)) <-> k = k' \/ In k (map fst o).
Proof.
  induction o as [|[k'' v''] o IH]; simpl.
  - firstorder congruence.
  - destruct (String.eqb_spec k' k'') as [E|Hne]; simpl.
    + subst k''. firstorder congruence.
    + rewrite IH. firstorder congruence.
Qed.

Lemma oget_copy (src : obj) (l : list TableColumn) o0 k :
  oget k (fold_left (fun o c => oset (name c) (oget (name c) src) o) l o0) =
  if memb k (map name l) then oget k src else oget k o0.
Proof.
  unfold memb. revert o0. induction l as [|c l IH]; intros o0; simpl; [reflexivity|].
  rewrite IH, oget_oset. destruct (String.eqb_spec k (name c)) as [->|]; simpl.
  - destruct (existsb _ _); reflexivity.
  - reflexivity.
Qed.

Lemma keys_copy (src : obj) (l : list TableColumn) o0 k :
  In k (map fst (fold_left (fun o c => oset (name c) (oget (name c) src) o) l o0)) <->
  In k (map name l) \/ In k (map fst o0).
Proof.
  revert o0. induction l as [|c l IH]; intros o0; simpl; [tauto|].
  rewrite IH, keys_oset. firstorder congruence.
Qed.

Lemma index_of_notin k l : ~ In k l -> index_of k l = None.
Proof.
  induction l as [|y l IH]; simpl; intros H; [reflexivity|].
  destruct (String.eqb_spec k y) as [->|]; [tauto|]. rewrite IH by tauto. reflexivity.
Qed.

Lemma index_of_nth l n d : NoDup l -> (n < length l)%nat -> index_of (nth n l d) l = Some n.
Proof.
  revert n. induction l as [|y l IH]; simpl; intros n Hn Hl; [lia|].
  inversion Hn as [|? ? Hy Hn']; subst.
  destruct n as [|n]; simpl.
  - rewrite String.eqb_refl. reflexivity.
  - destruct (String.eqb_spec (nth n l d) y) as [E|E].
    + exfalso. apply Hy. rewrite <- E. apply nth_In. lia.
    + rewrite IH by (auto; lia). reflexivity.
Qed.

Lemma construct_fold args l i n k :
  NoDup (map name l) ->
  oget k (cur (fst (fold_left (fun acc c =>
         let '(i, n) := acc in
         let v := nth n args VNull in
         (mkInst (oset (name c) v (cur i)) (oset (name c) v (orig i)), S n)) l (i, n)))) =
  match index_of k (map name l) with Some j => nth (n + j) args VNull | None => oget k (cur i) end.
Proof.
  revert i n. induction l as [|c l IH]; intros i n Hnd; simpl; [reflexivity|].
  inversion Hnd as [|? ? Hc Hnd']; subst. rewrite IH by exact Hnd'. simpl.
  destruct (String.eqb_spec k (name c)) as [->|Hne].
  - rewrite index_of_notin by exact Hc. rewrite oget_oset, String.eqb_refl, Nat.add_0_r.
    reflexivity.
  - destruct (index_of k (map name l)) as [j|]; simpl.
    + rewrite Nat.add_succ_r. reflexivity.
    + rewrite oget_oset. destruct (String.eqb_spec k (name c)); [contradiction|reflexivity].
Qed.

Lemma construct_same args l i n :
  cur i = orig i ->
  cur (fst (fold_left (fun acc c =>
         let '(i, n) := acc in
         let v := nth n args VNull in
         (mkInst (oset (name c) v (cur i)) (oset (name c) v (orig i)), S n)) l (i, n))) =
  orig (fst (fold_left (fun acc c =>
         let '(i, n) := acc in
         let v := nth n args VNull in
         (mkInst (oset (name c) v (cur i)) (oset (name c) v (orig i)), S n)) l (i, n))).
Proof.
  revert i n. induction l as [|c l IH]; intros i n H; simpl; [exact H|].
  apply IH. simpl. rewrite H. reflexivity.
Qed.

Lemma construct_ext a1 a2 l i n :
  (forall j, (j < length l)%nat -> nth (n + j) a1 VNull = nth (n + j) a2 VNull) ->
  fold_left (fun acc c =>
         let '(i, n) := acc in
         let v := nth n a1 VNull in
         (mkInst (oset (name c) v (cur i)) (oset (name c) v (orig i)), S n)) l (i, n) =
  fold_left (fun acc c =>
         let '(i, n) := acc in
         let v := nth n a2 VNull in
         (mkInst (oset (name c) v (cur i)) (oset (name c) v (orig i)), S n)) l (i, n).
Proof.
  revert i n. induction l as [|c l IH]; intros i n H; simpl; [reflexivity|].
  assert (H0 := H 0%nat ltac:(simpl; lia)). rewrite Nat.add_0_r in H0. rewrite H0.
  apply IH. intros j Hj. replace (S n + j)%nat with (n + S j)%nat by lia. apply H. simpl. lia.
Qed.

Lemma construct_cur m args k :
  NoDup (map name (mschema m)) ->
  oget k (cur (construct m args)) =
  match index_of k (map name (mschema m)) with Some j => nth j args VNull | None => VNull end.
Proof.
  intros H. unfold construct. rewrite construct_fold by exact H. reflexivity.
Qed.

Lemma construct_cur_orig m args : cur (construct m args) = orig (construct m args).
Proof. unfold construct. apply construct_same. reflexivity. Qed.

Lemma filter_all_true {A} (l : list A) : filter (fun _ => true) l = l.
Proof. induction l as [|x l IH]; simpl; [reflexivity|]. rewrite IH. reflexivity. Qed.

(** X1: for a model whose column names are distinct, [fromObject] applied to the
    unhidden [toObject] of an instance built by [create] gives back that
    instance: same current values and the same original values. *)
Theorem fromObject_toObject_create (m : Model) (args : list value) :
  NoDup (map name (mschema m)) ->
  fromObject m (toObject m (create m args) true) = create m args.
Proof.
  intros Hnd. unfold fromObject, create. unfold construct at 1 3.
  f_equal. apply construct_ext. intros j Hj. simpl.
  rewrite (nth_indep _ VNull ((fun c => oget (name c) (toObject m (construct m args) true)) dcol))
    by (rewrite length_map; exact Hj).
  rewrite (map_nth (fun c => oget (name c) (toObject m (construct m args) true)) (mschema m) dcol j).
  unfold toObject at 1. simpl. rewrite filter_all_true, oget_copy.
  assert (Hin : memb (name (nth j (mschema m) dcol)) (map name (mschema m)) = true).
  { apply memb_In. apply in_map. apply nth_In. exact Hj. }
  rewrite Hin, construct_cur by exact Hnd.
  rewrite <- (map_nth name). rewrite index_of_nth by (auto; rewrite length_map; exact Hj).
  reflexivity.
Qed.

Lemma fromObject_toObject_create_witness :
  NoDup (map name (mschema items)) /\
  fromObject items (toObject items (create items [VStr "b"; VStr "http://y"; VInt 3]) true)
  = create items [VStr "b"; VStr "http://y"; VInt 3].
Proof.
  assert (H : NoDup (map name (mschema items))) by (apply nodupb_NoDup; reflexivity).
  split; [exact H|]. apply fromObject_toObject_create. exact H.
Defined.

(** X2: [toObject] without [showSensitive] lists exactly the columns that are not
    sensitive, and each one carries the instance's current value; a sensitive
    column is absent, so looking it up gives null. *)
Theorem toObject_hides_sensitive (m : Model) (i : instance) :
  (forall k, In k (map fst (toObject m i false)) <->
             exists c, In c (mschema m) /\ name c = k /\ sensitive c = false) /\
  (forall k, oget k (toObject m i false) =
             if memb k (map name (filter (fun c => negb (sensitive c)) (mschema m)))
             then oget k (cur i) else VNull).
Proof.
  unfold toObject. simpl. split.
  - intros k. rewrite keys_copy. simpl. rewrite in_map_iff. split.
    + intros [[c [Hc Hin]]|[]]. apply filter_In in Hin as [Hin Hs].
      exists c. split; [exact Hin|]. split; [exact Hc|]. apply negb_true_iff. exact Hs.
    + intros [c [Hin [Hc Hs]]]. left. exists c. split; [exact Hc|].
      apply filter_In. split; [exact Hin|]. rewrite Hs. reflexivity.
  - intros k. rewrite oget_copy. reflexivity.
Qed.

(** *** Row operations *)





Lemma find_table_replace_hit t q p ts :
  pt_name q = t -> find_table t ts = Some p -> find_table t (replace_table q ts) = Some q.
Proof. intros Hq Ht. rewrite find_table_replace, Hq, String.eqb_refl, Ht. reflexivity. Qed.

Lemma key_fits_memb cs f v : key_fits cs f v = true -> memb f (col_names cs) = true.
Proof.
  unfold key_fits, col_type. destruct (find (fun c => String.eqb (fst c) f) cs) as [c|] eqn:E;
    [|discriminate]. intros _. apply find_some in E as [Hin Heq]. apply String.eqb_eq in Heq.
  apply memb_In. rewrite <- Heq. unfold col_names. apply in_map. exact Hin.
Qed.















(** X7: [moveRows] to a table that does not exist answers 500 with status false
    and 0 changes, and changes nothing, whatever the source, field and limit. *)
Theorem moveRows_missing_destination (src dst f : string) (v : value) (limit : option nat) (s : state) :
  find_table dst (tables (eng s)) = None ->
  moveRows src dst f v limit s = Done (mkResp 500 (Some false) (Some 0)) s.
Proof.
  intros Hd. unfold moveRows, bind, run, exec.
  destruct (fails (eng s) (SMoveRows dst src f v limit)); [reflexivity|].
  simpl. rewrite Hd. reflexivity.
Qed.

Lemma moveRows_missing_destination_witness :
  find_table "done" (tables (eng st_items)) = None /\
  moveRows "items" "done" "id" (VStr "a") None st_items
  = Done (mkResp 500 (Some false) (Some 0)) st_items.
Proof.
  split; [reflexivity|]. apply moveRows_missing_destination. reflexivity.
Defined.


(** *** Model layer *)

Lemma bind_assoc {A B C} (m : M A) (f : A -> M B) (g : B -> M C) s :
  bind (bind m f) g s = bind m (fun x => bind (f x) g) s.
Proof. unfold bind. destruct (m s); reflexivity. Qed.

Lemma bind_ret_l {A B} (a : A) (k : A -> M B) s : bind (ret a) k s = k a s.
Proof. reflexivity. Qed.

Lemma bind_run_ok {B} st (k : option output -> M B) s o e' :
  fails (eng s) st = false -> exec_ok st (eng s) = Some (o, e') ->
  bind (run st) k s = k (Some o) (set_eng e' s).
Proof. intros H E. unfold bind, run, exec. rewrite H, E. reflexivity. Qed.

Lemma loose_eq_refl v : loose_eq v v = true.
Proof. destruct v; simpl; [reflexivity | apply Z.eqb_refl | apply String.eqb_refl]. Qed.

Lemma filter_loose_refl (g : TableColumn -> value) l :
  filter (fun c => negb (loose_eq (g c) (g c))) l = [].
Proof. induction l as [|c l IH]; simpl; [reflexivity|]. rewrite loose_eq_refl. exact IH. Qed.

Lemma changed_columns_construct m args : changed_columns m (construct m args) = [].
Proof.
  unfold changed_columns. rewrite <- construct_cur_orig.
  apply (filter_loose_refl (fun c => oget (name c) (cur (construct m args)))).
Qed.

Lemma refresh_nil i : refresh [] i = i.
Proof. destruct i; reflexivity. Qed.

Lemma primaryKeyColumn_In m pk :
  primaryKeyColumn m = Some pk -> exists c, In c (mschema m) /\ name c = pk.
Proof.
  unfold primaryKeyColumn. destruct (find pkey (mschema m)) as [c|] eqn:E; [|discriminate].
  destruct (String.eqb (name c) ""); [discriminate|]. intros H. inversion H; subst.
  apply find_some in E as [Hin _]. eauto.
Qed.

Lemma index_of_Some k l j : index_of k l = Some j -> nth j l "" = k /\ (j < length l)%nat.
Proof.
  revert j. induction l as [|y l IH]; simpl; intros j H; [discriminate|].
  destruct (String.eqb_spec k y) as [->|]; [inversion H; split; [reflexivity | lia]|].
  destruct (index_of k l) as [j'|] eqn:E; [|discriminate]. inversion H; subst.
  destruct (IH j' eq_refl) as [A B]. split; [exact A | lia].
Qed.

Lemma oget_combine k ks vs :
  oget k (combine ks vs) = match index_of k ks with Some j => nth j vs VNull | None => VNull end.
Proof.
  revert vs. induction ks as [|k' ks IH]; intros vs; simpl; [reflexivity|].
  destruct vs as [|v vs]; simpl.
  - destruct (String.eqb k k'); [reflexivity|]. destruct (index_of k ks); reflexivity.
  - destruct (String.eqb k k'); [reflexivity|]. rewrite IH.
    destruct (index_of k ks); reflexivity.
Qed.

(** An object agreeing with a created instance on every column gives it back. *)
Lemma fromObject_agree m args (o : obj) :
  NoDup (map name (mschema m)) ->
  (forall c, In c (mschema m) -> oget (name c) o = oget (name c) (cur (construct m args))) ->
  fromObject m o = construct m args.
Proof.
  intros Hnd Hag. unfold fromObject. unfold construct at 1 2.
  f_equal. apply construct_ext. intros j Hj. simpl.
  rewrite (nth_indep _ VNull ((fun c => oget (name c) o) dcol)) by (rewrite length_map; exact Hj).
  rewrite (map_nth (fun c => oget (name c) o) (mschema m) dcol j).
  rewrite Hag by (apply nth_In; exact Hj).
  rewrite construct_cur by exact Hnd.
  rewrite <- (map_nth name). rewrite index_of_nth by (auto; rewrite length_map; exact Hj).
  reflexivity.
Qed.

Lemma nth_map_names (g : string -> value) (sch : list TableColumn) j :
  (j < length sch)%nat ->
  nth j (map (fun c => g (name c)) sch) VNull = g (nth j (map name sch) "").
Proof.
  intros Hj. rewrite (nth_indep _ VNull ((fun c => g (name c)) dcol)) by (rewrite length_map; exact Hj).
  rewrite (map_nth (fun c => g (name c)) sch dcol j).
  rewrite (nth_indep _ "" (name dcol)) by (rewrite length_map; exact Hj).
  rewrite map_nth. reflexivity.
Qed.

Lemma filter_none {A} (g : A -> bool) l : existsb g l = false -> filter g l = [].
Proof.
  induction l as [|x l IH]; simpl; [reflexivity|].
  destruct (g x); simpl; [discriminate | exact IH].
Qed.

Lemma sql_eq_refl v : v <> VNull -> sql_eq v v = true.
Proof. destruct v; simpl; [tauto | intros _; apply Z.eqb_refl | intros _; apply String.eqb_refl]. Qed.

Lemma sql_eq_null v : sql_eq v VNull = false.
Proof. destruct v; reflexivity. Qed.

(** X8: on a healthy engine whose table has the model's columns and types,
    saving a new instance, created with a non-null key that is not yet stored
    and with values fitting their columns, answers 200. A later [Model.find] on that key
    returns an instance equal to the one saved. *)
Theorem save_then_find (m : Model) (args : list value) (pk : string) (p : ptable) (s : state) :
  (forall x, fails (eng s) x = false) ->
  primaryKeyColumn m = Some pk ->
  NoDup (map name (mschema m)) ->
  find_table (tableName m) (tables (eng s)) = Some p ->
  pt_cols p = map (fun c => (name c, type c)) (mschema m) ->
  typed_table p = true ->
  forallb (fun c => fits (type c) (oget (name c) (cur (create m args)))) (mschema m) = true ->
  oget pk (cur (create m args)) <> VNull ->
  existsb (matches (pt_cols p) pk (oget pk (cur (create m args)))) (pt_rows p) = false ->
  exists s1 s2,
    save m (create m args) s = Done (mkResp 200 (Some true) (Some 1), create m args) s1 /\
    find_static m (oget pk (cur (create m args))) s1 = Done (Some (create m args)) s2.
Proof.
  intros H0 Hpk Hnd Ht Hcols _ _ Hk Hno.
  assert (Hc : col_names (pt_cols p) = map name (mschema m))
    by (unfold col_names; rewrite Hcols, map_map; reflexivity).
  unfold create in *. set (i := construct m args) in *.
  set (key := oget pk (cur i)) in *. set (t := tableName m) in *.
  destruct (primaryKeyColumn_In _ _ Hpk) as [cpk [Hcpk Hnpk]].
  assert (Hm : memb pk (col_names (pt_cols p)) = true).
  { rewrite Hc. apply memb_In. rewrite <- Hnpk. apply in_map. exact Hcpk. }
  set (vals := map (fun c => oget (name c) (cur i)) (mschema m)).
  assert (Hlen : length vals = length (pt_cols p)).
  { unfold vals. rewrite length_map. transitivity (length (col_names (pt_cols p))).
    - rewrite Hc, length_map. reflexivity.
    - unfold col_names. apply length_map. }
  assert (Hch : changed_columns m i = []) by apply changed_columns_construct.
  set (e1 := with_log (eng s) (SSelectCol t pk key)).
  assert (E1 : exec_ok (SSelectCol t pk key) (eng s) = Some (OFound false, e1))
    by (simpl; rewrite Ht, Hm, Hno; reflexivity).
  set (q := mkPTable t (pt_cols p) (pt_rows p ++ [vals])).
  set (e2 := with_tables e1 (replace_table q (tables (eng s))) (SInsertValues t vals)).
  assert (E2 : exec_ok (SInsertValues t vals) e1 = Some (OChanges 1, e2))
    by (simpl; rewrite Ht, Hlen, Nat.eqb_refl; reflexivity).
  assert (Es : save m i s = Done (mkResp 200 (Some true) (Some 1), i) (set_eng e2 (set_eng e1 s))).
  { unfold save. rewrite Hpk. cbv beta zeta. fold key. fold t.
  unfold valueExists. rewrite bind_assoc.
  rewrite (bind_run_ok _ _ _ _ _ (H0 _) E1). rewrite bind_ret_l. cbv beta iota delta [negb status_true status].
  unfold addValues. fold vals. rewrite bind_assoc.
  rewrite (bind_run_ok _ _ (set_eng e1 s) _ _ (H0 _) E2). rewrite bind_ret_l.
  cbv beta iota delta [status_true status]. rewrite Hch, refresh_nil. reflexivity. }
  set (s1 := set_eng e2 (set_eng e1 s)) in Es.
  assert (Ht1 : find_table t (tables (eng s1)) = Some q)
    by (apply (find_table_replace_hit _ _ p); [reflexivity | exact Ht]).
  assert (Hvals : forall j, (j < length (mschema m))%nat ->
                  nth j vals VNull = oget (nth j (map name (mschema m)) "") (cur i)).
  { intros j Hj. pose proof (nth_map_names (fun n => oget n (cur i)) _ _ Hj) as X.
    cbv beta in X. exact X. }
  assert (Hmv : matches (pt_cols p) pk key vals = true).
  { unfold matches, cell. destruct (index_of_memb _ _ Hm) as [j Hj]. rewrite Hj.
    destruct (index_of_Some _ _ _ Hj) as [Hnj Hjl]. rewrite Hc in Hnj, Hjl.
    rewrite length_map in Hjl. rewrite (Hvals j Hjl), Hnj. apply sql_eq_refl. exact Hk. }
  assert (Hfilter : filter (matches (pt_cols p) pk key) (pt_rows p ++ [vals]) = [vals]).
  { rewrite filter_app, (filter_none _ _ Hno). simpl. rewrite Hmv. reflexivity. }
  set (e3 := with_log (eng s1) (SSelectRows t (Some (pk, key)) (Some 1))).
  assert (E3 : exec_ok (SSelectRows t (Some (pk, key)) (Some 1)) (eng s1) =
               Some (ORows [as_object (pt_cols p) vals], e3)).
  { simpl. simpl in Ht1. rewrite Ht1. simpl. rewrite Hm, Hfilter. reflexivity. }
  assert (Hobj : fromObject m (as_object (pt_cols p) vals) = i).
  { apply fromObject_agree; [exact Hnd|]. intros c Hcin. unfold as_object.
    rewrite oget_combine, Hc.
    assert (Hmc : memb (name c) (map name (mschema m)) = true)
      by (apply memb_In; apply in_map; exact Hcin).
    destruct (index_of_memb _ _ Hmc) as [j Hj]. rewrite Hj.
    destruct (index_of_Some _ _ _ Hj) as [Hnj Hjl]. rewrite length_map in Hjl.
    rewrite (Hvals j Hjl), Hnj. reflexivity. }
  exists s1, (set_eng e3 s1). split; [exact Es|].
  unfold find_static. rewrite Hpk. fold t. unfold getRow, getRows.
  rewrite bind_assoc, bind_assoc. rewrite (bind_run_ok _ _ s1 _ _ (H0 _) E3).
  rewrite !bind_ret_l. simpl. rewrite Hobj. reflexivity.
Qed.

Lemma save_then_find_witness :
  exists s1 s2,
    save items (create items [VStr "b"; VStr "http://y"; VInt 3]) st_items
    = Done (mkResp 200 (Some true) (Some 1), create items [VStr "b"; VStr "http://y"; VInt 3]) s1 /\
    find_static items (VStr "b") s1 = Done (Some (create items [VStr "b"; VStr "http://y"; VInt 3])) s2.
Proof.
  apply (save_then_find items [VStr "b"; VStr "http://y"; VInt 3] "id" items_row st_items).
  - intros x. reflexivity.
  - reflexivity.
  - apply nodupb_NoDup. reflexivity.
  - reflexivity.
  - reflexivity.
  - reflexivity.
  - reflexivity.
  - vm_compute. discriminate.
  - reflexivity.
Defined.


Lemma filter_all_false {A} (g : A -> bool) l : (forall x, In x l -> g x = false) -> filter g l = [].
Proof.
  induction l as [|x l IH]; simpl; intros H; [reflexivity|].
  rewrite H by (left; reflexivity). apply IH. intros y Hy. apply H. right. exact Hy.
Qed.

Lemma changed_columns_refresh m i :
  changed_columns m (refresh (changed_columns m i) i) = [].
Proof.
  unfold changed_columns at 1. simpl. apply filter_all_false. intros c Hc.
  rewrite oget_copy.
  destruct (memb (name c) (map name (changed_columns m i))) eqn:Em.
  - rewrite loose_eq_refl. reflexivity.
  - destruct (loose_eq (oget (name c) (cur i)) (oget (name c) (orig i))) eqn:El; [reflexivity|].
    exfalso. apply memb_false in Em. apply Em. apply in_map. unfold changed_columns.
    apply filter_In. split; [exact Hc|]. rewrite El. reflexivity.
Qed.

(** X9: after a successful [save], the returned instance has no changed columns,
    and its current values are those of the instance that was saved. *)
Theorem save_clears_changes (m : Model) (i : instance) (s : state) (r : resp) (i' : instance) (s' : state) :
  save m i s = Done (r, i') s' -> status_true r = true ->
  changed_columns m i' = [] /\ cur i' = cur i.
Proof.
  intros E Hst. unfold save in E.
  destruct (primaryKeyColumn m) as [pk|]; [|discriminate]. cbv beta zeta in E.
  apply bind_Done in E as [er [s1 [_ E]]].
  destruct (negb (status_true er)).
  - apply bind_Done in E as [res [s2 [_ E]]]. apply ret_Done in E as [Eq _].
    inversion Eq; subst. rewrite Hst. split; [apply changed_columns_refresh | reflexivity].
  - apply bind_Done in E as [res [s2 [_ E]]]. apply ret_Done in E as [Eq _].
    inversion Eq; subst. destruct (forallb status_true res); simpl in Hst; [|discriminate].
    split; [apply changed_columns_refresh | reflexivity].
Qed.

Lemma save_clears_changes_witness :
  exists r i' s', save items edited_item st_items = Done (r, i') s' /\ status_true r = true /\
    changed_columns items edited_item <> [] /\
    changed_columns items i' = [] /\ cur i' = cur edited_item.
Proof.
  eexists _, _, _. split; [cbv; reflexivity|]. split; [reflexivity|]. split; [discriminate|].
  eapply (save_clears_changes items edited_item st_items); [cbv; reflexivity | reflexivity].
Defined.

(** X10: saving an instance whose key is already stored, with nothing changed
    since it was created, answers 200 and writes no table. *)
Theorem save_unchanged_no_write (m : Model) (args : list value) (pk : string) (p : ptable) (s : state) :
  (forall x, fails (eng s) x = false) ->
  primaryKeyColumn m = Some pk ->
  find_table (tableName m) (tables (eng s)) = Some p ->
  typed_table p = true -> key_fits (pt_cols p) pk (oget pk (cur (create m args))) = true ->
  existsb (matches (pt_cols p) pk (oget pk (cur (create m args)))) (pt_rows p) = true ->
  exists s', save m (create m args) s = Done (mkResp 200 (Some true) (Some 1), create m args) s' /\
             tables (eng s') = tables (eng s).
Proof.
  intros H0 Hpk Ht _ Hkf Hyes. pose proof (key_fits_memb _ _ _ Hkf) as Hm.
  unfold create in *. set (i := construct m args) in *.
  set (key := oget pk (cur i)) in *. set (t := tableName m) in *.
  assert (Hch : changed_columns m i = []) by apply changed_columns_construct.
  set (e1 := with_log (eng s) (SSelectCol t pk key)).
  assert (E1 : exec_ok (SSelectCol t pk key) (eng s) = Some (OFound true, e1))
    by (simpl; rewrite Ht, Hm, Hyes; reflexivity).
  exists (set_eng e1 s). split; [|reflexivity].
  unfold save. rewrite Hpk. cbv beta zeta. fold key. fold t.
  unfold valueExists. rewrite bind_assoc.
  rewrite (bind_run_ok _ _ _ _ _ (H0 _) E1). rewrite bind_ret_l.
  cbv beta iota delta [negb status_true status]. rewrite Hch. simpl map_m.
  rewrite bind_ret_l. simpl. rewrite refresh_nil. reflexivity.
Qed.

Lemma save_unchanged_no_write_witness :
  exists s', save items (create items [VStr "a"; VStr "http://x"; VInt 10]) st_items
    = Done (mkResp 200 (Some true) (Some 1), create items [VStr "a"; VStr "http://x"; VInt 10]) s' /\
    tables (eng s') = tables (eng st_items).
Proof.
  apply (save_unchanged_no_write items [VStr "a"; VStr "http://x"; VInt 10] "id" items_row st_items).
  - intros x. reflexivity.
  - reflexivity.
  - reflexivity.
  - reflexivity.
  - reflexivity.
  - reflexivity.
Defined.


Lemma existsb_matches_null cs f rs : existsb (matches cs f VNull) rs = false.
Proof.
  induction rs as [|x rs IH]; simpl; [reflexivity|]. unfold matches at 1. rewrite sql_eq_null. exact IH.
Qed.

(** X11: an instance whose primary key is null is always inserted by [save]: the
    existence check never matches a null key, so a new row holding the
    instance's values is appended to its table. *)
Theorem save_null_key_appends (m : Model) (i : instance) (pk : string) (p : ptable) (s : state) :
  (forall x, fails (eng s) x = false) ->
  primaryKeyColumn m = Some pk ->
  find_table (tableName m) (tables (eng s)) = Some p ->
  key_fits (pt_cols p) pk VNull = true ->
  map snd (pt_cols p) = map type (mschema m) ->
  forallb (fun c => fits (type c) (oget (name c) (cur i))) (mschema m) = true ->
  oget pk (cur i) = VNull ->
  exists i' s', save m i s = Done (mkResp 200 (Some true) (Some 1), i') s' /\
    find_table (tableName m) (tables (eng s')) =
      Some (mkPTable (tableName m) (pt_cols p)
              (pt_rows p ++ [map (fun c => oget (name c) (cur i)) (mschema m)])).
Proof.
  intros H0 Hpk Ht Hkf Hty _ Hk. pose proof (key_fits_memb _ _ _ Hkf) as Hm.
  assert (Hlen : length (mschema m) = length (pt_cols p))
    by (pose proof (f_equal (@length _) Hty) as HL; rewrite !length_map in HL; symmetry; exact HL). set (t := tableName m) in *.
  set (vals := map (fun c => oget (name c) (cur i)) (mschema m)).
  set (e1 := with_log (eng s) (SSelectCol t pk VNull)).
  assert (E1 : exec_ok (SSelectCol t pk VNull) (eng s) = Some (OFound false, e1))
    by (simpl; rewrite Ht, Hm, existsb_matches_null; reflexivity).
  set (q := mkPTable t (pt_cols p) (pt_rows p ++ [vals])).
  set (e2 := with_tables e1 (replace_table q (tables (eng s))) (SInsertValues t vals)).
  assert (E2 : exec_ok (SInsertValues t vals) e1 = Some (OChanges 1, e2)).
  { simpl. rewrite Ht. unfold vals. rewrite length_map, Hlen, Nat.eqb_refl. reflexivity. }
  exists (refresh (changed_columns m i) i), (set_eng e2 (set_eng e1 s)). split.
  - unfold save. rewrite Hpk. cbv beta zeta. rewrite Hk. fold t.
    unfold valueExists. rewrite bind_assoc.
    rewrite (bind_run_ok _ _ _ _ _ (H0 _) E1). rewrite bind_ret_l.
    cbv beta iota delta [negb status_true status].
    unfold addValues. fold vals. rewrite bind_assoc.
    rewrite (bind_run_ok _ _ (set_eng e1 s) _ _ (H0 _) E2). reflexivity.
  - apply (find_table_replace_hit _ _ p); [reflexivity | exact Ht].
Qed.

Lemma save_null_key_appends_witness :
  exists i' s', save items (create items [VNull; VStr "http://z"; VInt 1]) st_items
    = Done (mkResp 200 (Some true) (Some 1), i') s' /\
    find_table "items" (tables (eng s')) =
      Some (mkPTable "items" (pt_cols items_row)
              (pt_rows items_row ++ [[VNull; VStr "http://z"; VInt 1]])).
Proof.
  apply (save_null_key_appends items (create items [VNull; VStr "http://z"; VInt 1]) "id"
           items_row st_items).
  - intros x. reflexivity.
  - reflexivity.
  - reflexivity.
  - reflexivity.
  - reflexivity.
  - reflexivity.
  - reflexivity.
Defined.


Lemma filter_find {A} (P : A -> bool) l :
  (find P l = None /\ filter P l = []) \/
  (exists x rest, find P l = Some x /\ filter P l = x :: rest).
Proof.
  induction l as [|y l IH]; simpl; [left; auto|]. destruct (P y); [right; eauto|exact IH].
Qed.

(** X12: [Model.find] returns the first stored row whose key equals the argument,
    converted through [fromObject], and it writes nothing. A null key finds
    nothing. *)
Theorem find_first_match (m : Model) (pk : string) (key : value) (s : state) (p : ptable)
  (r : option instance) (s' : state) :
  (forall x, fails (eng s) x = false) ->
  primaryKeyColumn m = Some pk ->
  find_table (tableName m) (tables (eng s)) = Some p ->
  typed_table p = true -> key_fits (pt_cols p) pk key = true ->
  find_static m key s = Done r s' ->
  r = option_map (fun x => fromObject m (as_object (pt_cols p) x))
                 (find (matches (pt_cols p) pk key) (pt_rows p)) /\
  tables (eng s') = tables (eng s) /\
  (key = VNull -> r = None).
Proof.
  intros H0 Hpk Ht _ Hkf E. pose proof (key_fits_memb _ _ _ Hkf) as Hm. unfold find_static in E. rewrite Hpk in E.
  unfold getRow, getRows in E.
  apply bind_Done in E as [g [s1 [E1 E]]]. apply bind_Done in E1 as [g1 [s2 [E2 E1]]].
  apply bind_Done in E2 as [o [s3 [E3 E2]]].
  rewrite run_ok in E3 by exact H0. simpl in E3. rewrite Ht, Hm in E3. inversion E3; subst.
  apply ret_Done in E2 as [-> ->]. apply ret_Done in E1 as [-> ->]. apply ret_Done in E as [-> ->].
  simpl. split; [|split; [reflexivity|]].
  - destruct (filter_find (matches (pt_cols p) pk key) (pt_rows p))
      as [[-> ->]|[x [rest [-> ->]]]]; reflexivity.
  - intros ->. rewrite (filter_all_false (matches (pt_cols p) pk VNull) (pt_rows p)); [reflexivity|].
    intros x _. unfold matches. apply sql_eq_null.
Qed.

Lemma find_first_match_witness :
  exists r s', find_static items (VStr "a") st_items = Done r s' /\
    r = Some (create items [VStr "a"; VStr "http://x"; VInt 10]).
Proof.
  eexists _, _. split; [cbv; reflexivity|].
  destruct (find_first_match items "id" (VStr "a") st_items items_row _ _
              (fun _ => eq_refl) eq_refl eq_refl eq_refl eq_refl eq_refl) as [Hr _].
  etransitivity; [exact Hr | vm_compute; reflexivity].
Defined.

(** X13: when the model's table does not exist, [Model.all] and [column.fetch]
    return an empty list and leave the state unchanged. *)
Theorem all_missing_table_empty (m : Model) (s : state) :
  find_table (tableName m) (tables (eng s)) = None ->
  all m s = Done [] s /\ (forall c v, column_fetch m c v s = Done [] s).
Proof.
  intros Ht. split; [|intros c v]; unfold all, column_fetch, getRows, bind, run, exec.
  - destruct (fails (eng s) _); [reflexivity|]. simpl. rewrite Ht. reflexivity.
  - destruct (fails (eng s) _); [reflexivity|]. simpl. rewrite Ht. reflexivity.
Qed.

Lemma all_missing_table_empty_witness :
  find_table "items" (tables (eng st_empty)) = None /\
  all items st_empty = Done [] st_empty /\
  (forall c v, column_fetch items c v st_empty = Done [] st_empty).
Proof.
  split; [reflexivity|]. apply all_missing_table_empty. reflexivity.
Defined.


(** *** Maintenance *)

Lemma path_eqb_spec a b : path_eqb a b = true <-> a = b.
Proof.
  revert b. induction a as [|x a IH]; intros [|y b]; simpl; split; intros H;
    try discriminate; try reflexivity.
  - apply andb_true_iff in H as [H1 H2]. apply String.eqb_eq in H1. apply IH in H2. congruence.
  - inversion H; subst. rewrite String.eqb_refl. simpl. apply IH. reflexivity.
Qed.

Lemma path_eqb_refl a : path_eqb a a = true.
Proof. apply path_eqb_spec. reflexivity. Qed.

Lemma file_get_del g f l :
  file_get g (file_del f l) = if path_eqb g f then None else file_get g l.
Proof.
  unfold file_del. induction l as [|[h c] l IH]; simpl.
  - destruct (path_eqb g f); reflexivity.
  - destruct (path_eqb f h) eqn:Efh; simpl.
    + apply path_eqb_spec in Efh. subst h. rewrite IH.
      destruct (path_eqb g f); reflexivity.
    + rewrite IH. destruct (path_eqb g f) eqn:Egf; [|reflexivity].
      apply path_eqb_spec in Egf. subst g. rewrite Efh. reflexivity.
Qed.

Lemma fs_mkdir_files d f f' : fs_mkdir d f = Some f' -> files f' = files f /\ io_fails f' = io_fails f.
Proof. unfold fs_mkdir. destruct (io_fails f (IOMkdir d)); intros E; inversion E; auto. Qed.

(** X14: a backup that answers 200 has released the busy flag and left the
    engine unchanged. Its target is not the storage file, it now holds the
    contents of the storage file, and no other file has changed. *)
Theorem backup_success_copies (opts : Options) (arg : option path) (s : state) (r : resp) (s' : state) :
  backup opts arg s = Done r s' -> code r = 200%Z ->
  let f := match arg with None | Some [] => backup_filename opts | Some p => p end in
  busy s' = false /\ eng s' = eng s /\ f <> filename opts /\
  file_get f (files (fs s')) = file_get (filename opts) (files (fs s)) /\
  file_get f (files (fs s')) <> None /\
  (forall g, g <> f -> file_get g (files (fs s')) = file_get g (files (fs s))).
Proof.
  intros E Hc f. unfold backup in E. fold f in E.
  apply bind_Done in E as [b [s1 [E1 E]]]. unfold get_busy in E1. inversion E1; subst s1 b.
  destruct (busy s); [apply ret_Done in E as [-> _]; discriminate|].
  apply bind_Done in E as [u [s2 [E2 E]]].
  assert (Hf2 : files (fs s2) = files (fs s) /\ eng s2 = eng s).
  { unfold mkdir_quiet in E2. destruct (fs_mkdir _ _) as [x|] eqn:Em; inversion E2; subst;
      [apply fs_mkdir_files in Em as [Hx _]; simpl; auto | auto]. }
  apply bind_Done in E as [u2 [s3 [E3 E]]].
  unfold unlink, fs_unlink in E3.
  destruct (io_fails (fs s2) (IOUnlink f)); [inversion E3; subst; apply ret_Done in E as [-> _]; discriminate|].
  destruct (file_get f (files (fs s2))) eqn:Eg; [|inversion E3; subst; apply ret_Done in E as [-> _]; discriminate].
  inversion E3; subst s3 u2. simpl in E.
  apply bind_Done in E as [u3 [s4 [E4 E]]]. unfold put_busy in E4. inversion E4; subst s4 u3.
  apply bind_Done in E as [c [s5 [E5 E]]]. unfold copyFile, fs_copy in E5. simpl in E5.
  destruct (io_fails (fs s2) (IOCopy (filename opts) f));
    [inversion E5; subst; apply ret_Done in E as [-> _]; discriminate|].
  destruct (file_get (filename opts) (file_del f (files (fs s2)))) as [cnt|] eqn:Ec;
    [|inversion E5; subst; apply ret_Done in E as [-> _]; discriminate].
  inversion E5; subst s5 c. simpl in E.
  apply bind_Done in E as [u4 [s6 [E6 E]]]. unfold put_busy in E6. inversion E6; subst s6 u4.
  apply ret_Done in E as [_ ->]. simpl.
  destruct Hf2 as [Hfiles Heng].
  rewrite file_get_del in Ec. destruct (path_eqb (filename opts) f) eqn:Epf; [discriminate|].
  assert (Hne : f <> filename opts).
  { intros Hx. rewrite Hx, path_eqb_refl in Epf. discriminate. }
  rewrite path_eqb_refl. split; [reflexivity|]. split; [exact Heng|]. split; [exact Hne|].
  split; [rewrite <- Hfiles; exact (eq_sym Ec)|]. split; [discriminate|].
  intros g Hg. destruct (path_eqb g f) eqn:Egf; [apply path_eqb_spec in Egf; contradiction|].
  rewrite !file_get_del, Egf, Hfiles. reflexivity.
Qed.

Lemma backup_success_copies_witness :
  exists r s', backup (items_opts true false) None st_files = Done r s' /\ code r = 200%Z /\
    file_get bak_path (files (fs s')) = Some "DB".
Proof.
  eexists _, _. split; [cbv; reflexivity|]. split; [reflexivity|].
  pose proof (backup_success_copies (items_opts true false) None st_files _ _ eq_refl eq_refl) as H.
  cbv zeta in H. destruct H as [_ [_ [_ [Hf _]]]]. exact Hf.
Defined.


Lemma bind_step {A B} (m : M A) (k : A -> M B) s a s1 :
  m s = Done a s1 -> bind m k s = k a s1.
Proof. intros E. unfold bind. rewrite E. reflexivity. Qed.

Lemma mkdir_quiet_spec d s :
  exists s1, mkdir_quiet d s = Done tt s1 /\ files (fs s1) = files (fs s) /\
    io_fails (fs s1) = io_fails (fs s) /\ eng s1 = eng s /\ busy s1 = busy s /\
    ready s1 = ready s /\ backup_timer s1 = backup_timer s /\ vacuum_timer s1 = vacuum_timer s.
Proof.
  unfold mkdir_quiet. destruct (fs_mkdir d (fs s)) as [x|] eqn:Em.
  - apply fs_mkdir_files in Em as [H1 H2]. eexists; split; [reflexivity|]. simpl. auto 10.
  - eexists; split; [reflexivity|]. auto 10.
Qed.

(** X15: a backup whose target is the storage file itself first unlinks that
    file, then fails to copy it. It answers 500, the storage file is gone, and
    the busy flag stays set. *)
Theorem backup_onto_storage_file (opts : Options) (s : state) :
  busy s = false -> filename opts <> [] ->
  io_fails (fs s) (IOUnlink (filename opts)) = false ->
  file_get (filename opts) (files (fs s)) <> None ->
  exists s', backup opts (Some (filename opts)) s = Done R500 s' /\
             file_get (filename opts) (files (fs s')) = None /\
             busy s' = true /\ eng s' = eng s.
Proof.
  intros Hb Hne Hio Hget.
  assert (Hf : match Some (filename opts) with None | Some [] => backup_filename opts
               | Some p => p end = filename opts).
  { destruct (filename opts); [contradiction|reflexivity]. }
  unfold backup. cbv zeta. rewrite Hf.
  rewrite (bind_step _ _ s (busy s) s) by reflexivity. rewrite Hb.
  destruct (mkdir_quiet_spec (dirname (filename opts)) s)
    as [s1 [E1 [Hf1 [Hio1 [He1 [Hb1 _]]]]]].
  rewrite (bind_step _ _ _ _ _ E1).
  destruct (file_get (filename opts) (files (fs s))) as [c|] eqn:Eg; [|contradiction].
  set (x := mkFs (dirs (fs s1)) (file_del (filename opts) (files (fs s1))) (io_fails (fs s1))).
  assert (E2 : unlink (filename opts) s1 = Done true (set_fs x s1)).
  { unfold unlink, fs_unlink.
    replace (io_fails (fs s1) (IOUnlink (filename opts))) with false by (rewrite Hio1; auto).
    replace (file_get (filename opts) (files (fs s1))) with (Some c) by (rewrite Hf1; auto).
    reflexivity. }
  rewrite (bind_step _ _ _ _ _ E2). change (negb true) with false. cbv iota.
  rewrite (bind_step _ _ _ tt (set_busy true (set_fs x s1))) by reflexivity.
  assert (E3 : copyFile (filename opts) (filename opts) (set_busy true (set_fs x s1))
               = Done false (set_busy true (set_fs x s1))).
  { unfold copyFile, fs_copy. simpl. destruct (io_fails (fs s1) _); [reflexivity|].
    rewrite file_get_del, path_eqb_refl. reflexivity. }
  rewrite (bind_step _ _ _ _ _ E3). simpl.
  eexists; split; [reflexivity|]. simpl.
  rewrite file_get_del, path_eqb_refl. auto.
Qed.

Lemma backup_onto_storage_file_witness :
  exists s', backup (items_opts true false) (Some db_path) st_files = Done R500 s' /\
    file_get db_path (files (fs s')) = None /\ busy s' = true /\ eng s' = eng st_files.
Proof.
  apply (backup_onto_storage_file (items_opts true false) st_files).
  - reflexivity.
  - discriminate.
  - reflexivity.
  - discriminate.
Defined.


Lemma backup_settles (opts : Options) (arg : option path) (s : state) :
  exists r s', backup opts arg s = Done r s' /\
    ready s' = ready s /\ backup_timer s' = backup_timer s /\
    vacuum_timer s' = vacuum_timer s /\ eng s' = eng s /\ (busy s = true -> s' = s).
Proof.
  unfold backup. cbv zeta.
  rewrite (bind_step _ _ s (busy s) s) by reflexivity.
  destruct (busy s) eqn:Hb.
  { eexists _, _; split; [reflexivity|]. auto. }
  set (f := match arg with None | Some [] => backup_filename opts | Some p => p end).
  destruct (mkdir_quiet_spec (dirname f) s) as [s1 [E1 [_ [_ [He1 [_ [Hr1 [Hbt1 Hvt1]]]]]]]].
  rewrite (bind_step _ _ _ _ _ E1).
  unfold bind at 1, unlink.
  destruct (fs_unlink f (fs s1)) as [x|].
  2:{ eexists _, _; split; [reflexivity|]. split; [|split; [|split; [|split]]]; auto; discriminate. }
  change (negb true) with false. cbv iota.
  rewrite (bind_step _ _ _ tt (set_busy true (set_fs x s1))) by reflexivity.
  unfold bind at 1, copyFile.
  destruct (fs_copy (filename opts) f (fs (set_busy true (set_fs x s1)))) as [y|]; simpl.
  - eexists _, _; split; [reflexivity|]. simpl. split; [|split; [|split; [|split]]]; auto; discriminate.
  - eexists _, _; split; [reflexivity|]. simpl. split; [|split; [|split; [|split]]]; auto; discriminate.
Qed.

(** X16: [vacuum] started while not busy always releases the busy flag and
    leaves the tables unchanged. It answers 200 unless the engine fails the
    VACUUM statement, in which case it answers 500. *)
Theorem vacuum_releases_busy (s : state) (r : resp) (s' : state) :
  busy s = false -> vacuum s = Done r s' ->
  busy s' = false /\ tables (eng s') = tables (eng s) /\
  r = (if fails (eng s) SVacuum then R500 else R200).
Proof.
  intros Hb E. unfold vacuum in E.
  rewrite (bind_step _ _ s (busy s) s) in E by reflexivity. rewrite Hb in E.
  rewrite (bind_step _ _ _ tt (set_busy true s)) in E by reflexivity.
  unfold bind at 1, run, exec in E. simpl in E.
  destruct (fails (eng s) SVacuum) eqn:Ef.
  - simpl in E. inversion E; subst. simpl. auto.
  - unfold exec_ok in E. simpl in E. inversion E; subst. simpl. auto.
Qed.

Lemma vacuum_releases_busy_witness :
  exists r s', vacuum st_items = Done r s' /\ busy s' = false /\ r = R200.
Proof.
  eexists _, _. split; [cbv; reflexivity|].
  destruct (vacuum_releases_busy st_items _ _ eq_refl eq_refl) as [Hb [_ Hr]].
  split; [exact Hb | etransitivity; [exact Hr | reflexivity]].
Defined.

(** X17: closing an open database always stops both timers. It answers 200 or
    500 following the engine's close, and it changes neither the tables nor
    the ready flag. While a backup is running, it skips the final backup and
    leaves the files unchanged. *)
Theorem close_clears_timers (opts : Options) (close_ok : bool) (s : state) :
  ready s = true ->
  exists s', close opts close_ok s = Done (if close_ok then R200 else R500) s' /\
    backup_timer s' = false /\ vacuum_timer s' = false /\ ready s' = ready s /\
    eng s' = eng s /\ (busy s = true -> fs s' = fs s).
Proof.
  intros _. unfold close. rewrite (bind_step _ _ s tt (clear_timers s)) by reflexivity.
  destruct (backup_settles opts (Some (backup_filename opts)) (clear_timers s))
    as [r [s1 [E [Hr [Hbt [Hvt [He Hbusy]]]]]]].
  rewrite (bind_step _ _ _ _ _ E).
  eexists; split; [reflexivity|]. simpl in *. repeat split; auto.
  intros Hb. rewrite (Hbusy Hb). reflexivity.
Qed.

Lemma close_clears_timers_witness :
  ready st_ready = true /\
  exists s', close (items_opts true false) true st_ready = Done R200 s' /\
    backup_timer s' = false /\ vacuum_timer s' = false /\ ready s' = ready st_ready /\
    eng s' = eng st_ready /\ (busy st_ready = true -> fs s' = fs st_ready).
Proof.
  split; [reflexivity|]. apply (close_clears_timers (items_opts true false) true st_ready).
  reflexivity.
Defined.

(** X18: when the database handle cannot be opened, [open] answers 500 and
    changes nothing else: no table, timer, ready or busy flag. *)
Theorem open_handle_failure (opts : Options) (s : state) :
  io_fails (fs s) (IOOpenDb (filename opts)) = true ->
  exists s', open opts s = Done R500 s' /\ eng s' = eng s /\ ready s' = ready s /\
    backup_timer s' = backup_timer s /\ vacuum_timer s' = vacuum_timer s /\ busy s' = busy s.
Proof.
  intros Hio. unfold open.
  destruct (mkdir_quiet_spec (dirname (filename opts)) s)
    as [s1 [E1 [_ [Hio1 [He1 [Hb1 [Hr1 [Hbt1 Hvt1]]]]]]]].
  rewrite (bind_step _ _ _ _ _ E1).
  assert (E2 : open_handle opts s1 = Done false s1).
  { unfold open_handle. rewrite Hio1, Hio. reflexivity. }
  rewrite (bind_step _ _ _ _ _ E2).
  eexists; split; [reflexivity|]. auto.
Qed.

Lemma open_handle_failure_witness :
  io_fails (fs (mk_state [items_row] healthy [] io_down false)) (IOOpenDb db_path) = true /\
  exists s', open (items_opts true false) (mk_state [items_row] healthy [] io_down false) = Done R500 s' /\
    eng s' = eng (mk_state [items_row] healthy [] io_down false) /\ ready s' = false /\
    backup_timer s' = false /\ vacuum_timer s' = false /\ busy s' = false.
Proof.
  split; [reflexivity|].
  apply (open_handle_failure (items_opts true false) (mk_state [items_row] healthy [] io_down false)).
  reflexivity.
Defined.



(** X20: when its two lookups run, [renameTable] changes no table when the source table is missing (404)
    or the target name is taken (409). *)
Theorem renameTable_refused (a b : string) (s : state) :
  fails (eng s) (SMasterLookup a) = false -> fails (eng s) (SMasterLookup b) = false ->
  has_table a (tables (eng s)) = false \/ has_table b (tables (eng s)) = true ->
  exists s', renameTable a b s =
    Done (mkResp (if has_table a (tables (eng s)) then 409 else 404) (Some false) None) s' /\
    tables (eng s') = tables (eng s).
Proof.
  intros H1 H2 Hc. unfold renameTable, tableExists. rewrite bind_assoc.
  rewrite (bind_run_ok (SMasterLookup a) _ s _ _ H1 eq_refl). rewrite bind_ret_l.
  destruct (has_table a (tables (eng s))) eqn:Ea; simpl.
  - destruct Hc as [Hc|Hc]; [discriminate|].
    rewrite bind_assoc. erewrite bind_run_ok; [| exact H2 | reflexivity]. rewrite bind_ret_l. simpl.
    rewrite Hc. simpl. eexists; split; reflexivity.
  - eexists; split; reflexivity.
Qed.

Lemma renameTable_refused_witness :
  exists s', renameTable "items" "done" st_items_done = Done (mkResp 409 (Some false) None) s' /\
    tables (eng s') = tables (eng st_items_done).
Proof.
  apply (renameTable_refused "items" "done" st_items_done); [reflexivity | reflexivity | right; reflexivity].
Defined.












End Extras.
